(** * Dig Dug match core: a shallow embedding of [game.py]

    The development follows [src/game.py]: the rope (weapon) state
    machine [Rope], and the tick orchestrator [Game] with its input
    resolution, death policy, collision resolver and level progression.

    Python objects are records; a method that mutates [self] is a function
    returning the new record.  Lists that hold mutable objects and are
    walked with a [for] loop while the loop body mutates their elements
    are walked by index over the current state, so every iteration sees
    the mutations of the previous ones. *)

From Stdlib Require Import ZArith String Ascii.
From stdpp Require Import base decidable option list gmap strings.

Local Open Scope string_scope.
Local Open Scope list_scope.
Local Open Scope Z_scope.

(** ** Module constants of [game.py] *)

Definition LIVES : Z := 3.
Definition INITIAL_SCORE : Z := 0.
Definition TIMEOUT : Z := 3000.
Definition GAME_SPEED : Z := 10.
Definition MAP_SIZE : Z * Z := (32, 32).
Definition MAX_LEN_ROPE : Z := 3.
Definition ROCK_KILL_POINTS : Z := 1000.

(** ** Data of the collaborating modules

    [game.py] imports its entities from [characters] and its terrain
    from [mapa].  Their data is modelled by the attributes that [game.py]
    reads and writes. *)

Definition Pos : Type := Z * Z.

(** Modelled from the spec: the [Direction] enumeration of [characters].
    [viewer.py] receives the rope direction through the JSON snapshot and
    tests it with [dir in [1, 3]  # East or West] and [dir in [0, 3]], and
    indexes [ROPE_EDGE] by [0..3]: the members are integers, north is 0,
    east 1, south 2 and west 3. *)
Inductive Direction : Type := NORTH | EAST | SOUTH | WEST.

Definition Direction_value (d : Direction) : Z :=
  match d with NORTH => 0 | EAST => 1 | SOUTH => 2 | WEST => 3 end.

#[global] Instance Direction_eq_dec : EqDecision Direction.
Proof. solve_decision. Defined.

(** Python truth value of the attribute [Rope._dir]: [None] is false, and
    an integer-valued member is false exactly when its value is 0. *)
Definition truthy (o : option Direction) : bool :=
  match o with
  | None => false
  | Some d => negb (Direction_value d =? 0)
  end.

Inductive EnemyKind : Type := Fygar | Pooka.

Definition kind_name (k : EnemyKind) : string :=
  match k with Fygar => "Fygar" | Pooka => "Pooka" end.

(** Modelled from the spec: an enemy of [characters].  [game.py] reads
    [pos], [alive], [exit], [id] and [_name]; the spawn point is where
    [respawn] sends it back, and [e_crushed] records the cause given to
    [kill(rock=True)], on which the point value depends. *)
Record Enemy : Type := mkEnemy {
  e_id : Z;
  e_name : string;
  e_pos : Pos;
  e_spawn : Pos;
  e_alive : bool;
  e_exit : bool;
  e_crushed : bool
}.

(** Modelled from the spec: the constructor call [t(p)] of [next_level];
    the identity is a fresh uuid in the source, here the number [uid]. *)
Definition Enemy_new (k : EnemyKind) (p : Pos) (uid : Z) : Enemy :=
  {| e_id := uid; e_name := kind_name k; e_pos := p; e_spawn := p;
     e_alive := true; e_exit := false; e_crushed := false |}.

(** Modelled from the spec: [Enemy.kill(rock=False)] flags the enemy dead
    and remembers whether a rock was the cause. *)
Definition Enemy_kill (rock : bool) (e : Enemy) : Enemy :=
  {| e_id := e_id e; e_name := e_name e; e_pos := e_pos e;
     e_spawn := e_spawn e; e_alive := false; e_exit := e_exit e;
     e_crushed := rock |}.

(** Modelled from the spec: [Enemy.respawn()] puts the enemy back on its
    own spawn point. *)
Definition Enemy_respawn (e : Enemy) : Enemy :=
  {| e_id := e_id e; e_name := e_name e; e_pos := e_spawn e;
     e_spawn := e_spawn e; e_alive := e_alive e; e_exit := e_exit e;
     e_crushed := e_crushed e |}.

(** Modelled from the spec: a rock of [characters], with the attributes
    [id] and [pos] that [game.py] reads. *)
Record Rock : Type := mkRock {
  r_id : Z;
  r_pos : Pos
}.

(** Modelled from the spec: the player character of [characters]. *)
Record DigDug : Type := mkDigDug {
  d_pos : Pos;
  d_spawn : Pos;
  d_lives : Z;
  d_direction : Direction
}.

(** Modelled from the spec: [DigDug.kill()] takes exactly one life. *)
Definition DigDug_kill (d : DigDug) : DigDug :=
  {| d_pos := d_pos d; d_spawn := d_spawn d; d_lives := d_lives d - 1;
     d_direction := d_direction d |}.

(** Modelled from the spec: [DigDug.respawn()] moves the player back to
    the fixed spawn point, lives untouched. *)
Definition DigDug_respawn (d : DigDug) : DigDug :=
  {| d_pos := d_spawn d; d_spawn := d_spawn d; d_lives := d_lives d;
     d_direction := d_direction d |}.

(** Modelled from the spec: the terrain [mapa.Map], with the attributes
    that [game.py] reads ([size], [level], [ver_tiles], [digdug_spawn],
    [enemies_spawn], [_rocks] and the tile grid [map]). *)
Record Map : Type := mkMap {
  m_size : Z * Z;
  m_level : Z;
  m_ver_tiles : Z;
  m_digdug_spawn : Pos;
  m_enemies_spawn : list Pos;
  m_rocks : list Pos;
  m_map : list (list Z)
}.

(** The behaviour of the collaborators that [game.py] only calls: terrain
    generation and stepping, movement of the three kinds of entity, the
    point value of a dead enemy, and the floating point test
    [math.dist(a, b) < VITAL_SPACE].  A movement call changes the object
    it is called on and only reads the others. *)
Class Collaborators : Type := {
  calc_pos : Map -> Pos -> Direction -> bool -> Pos;
  Map_empty : Z * Z -> Map;
  Map_level : Z -> Z * Z -> Map;
  DigDug_new_direction : Direction;
  DigDug_move :
    Map -> option Direction -> list Enemy -> list Rock -> DigDug -> DigDug;
  Enemy_move : Map -> DigDug -> list Enemy -> list Rock -> Enemy -> Enemy;
  Rock_move : Map -> DigDug -> list Rock -> Rock -> Rock;
  Enemy_points : Z -> Enemy -> Z;
  in_vital_space : Pos -> Pos -> bool
}.

(** ** [key2direction] *)

Definition key2direction (key : string) : option Direction :=
  if bool_decide (key = "w") then Some NORTH
  else if bool_decide (key = "a") then Some WEST
  else if bool_decide (key = "s") then Some SOUTH
  else if bool_decide (key = "d") then Some EAST
  else None.

(** ** The rope *)

Record Rope : Type := mkRope {
  rope_pos : list Pos;
  rope_dir : option Direction;
  rope_map : Map
}.

Definition Rope_init (mapa : Map) : Rope :=
  {| rope_pos := []; rope_dir := None; rope_map := mapa |}.

Section RopeOps.
Context `{!Collaborators}.

(** The guard of the first [if] of [Rope.shoot]:
    [self._dir and direction != self._dir]. *)
Definition turned (r : Rope) (direction : Direction) : bool :=
  truthy (rope_dir r) && bool_decide (Some direction <> rope_dir r).

(** The cell [new_pos] of [Rope.shoot]: one step from the tip of the
    rope, or from [pos] when the rope has no cell. *)
Definition rope_next_cell (r : Rope) (pos : Pos) (direction : Direction)
    : Pos :=
  match last (rope_pos r) with
  | Some tip => calc_pos (rope_map r) tip direction false
  | None => calc_pos (rope_map r) pos direction false
  end.

(** [Rope.shoot(pos, direction)]. *)
Definition Rope_shoot (r : Rope) (pos : Pos) (direction : Direction) : Rope :=
  if turned r direction then
    {| rope_pos := []; rope_dir := None; rope_map := rope_map r |}
  else
    let new_pos := rope_next_cell r pos direction in
    if bool_decide (new_pos ∈ rope_pos r) then
      {| rope_pos := []; rope_dir := None; rope_map := rope_map r |}
    else
      let cells := rope_pos r ++ [new_pos] in
      if Z.of_nat (length cells) >? MAX_LEN_ROPE then
        {| rope_pos := []; rope_dir := Some direction;
           rope_map := rope_map r |}
      else
        {| rope_pos := cells; rope_dir := Some direction;
           rope_map := rope_map r |}.

(** [Rope.hit(enemies)]: the returned flag and the enemy list with the
    first enemy on the rope killed. *)
Fixpoint Rope_hit (r : Rope) (enemies : list Enemy) : bool * list Enemy :=
  match enemies with
  | [] => (false, [])
  | e :: rest =>
      if bool_decide (e_pos e ∈ rope_pos r) then
        (true, Enemy_kill false e :: rest)
      else
        let '(found, rest') := Rope_hit r rest in (found, e :: rest')
  end.
End RopeOps.

(** ** Strings as Python uses them in [update_digdug] *)

(** [needle in hay] on Python strings: [needle] occurs as a substring. *)
Fixpoint str_in (needle hay : string) : bool :=
  String.prefix needle hay ||
  match hay with
  | EmptyString => false
  | String _ hay' => str_in needle hay'
  end.

Definition ascii_lower (c : ascii) : bool :=
  (97 <=? nat_of_ascii c)%nat && (nat_of_ascii c <=? 122)%nat.

Definition ascii_upper (c : ascii) : bool :=
  (65 <=? nat_of_ascii c)%nat && (nat_of_ascii c <=? 90)%nat.

(** [str.isupper()]: no lowercase letter and at least one uppercase one.
    The call is reached only for substrings of ["wasdAB"], so the ASCII
    letters are the only cased characters to consider. *)
Definition isupper (s : string) : bool :=
  forallb (fun c => negb (ascii_lower c)) (list_ascii_of_string s) &&
  existsb ascii_upper (list_ascii_of_string s).

Arguments str_in : simpl never.
Arguments isupper : simpl never.

(** ** The snapshot and the match-info record *)

Record EnemySummary : Type := mkEnemySummary {
  es_name : string;
  es_id : Z;
  es_pos : Pos
}.

Record RockSummary : Type := mkRockSummary {
  rs_id : Z;
  rs_pos : Pos
}.

Record RopeSummary : Type := mkRopeSummary {
  rp_dir : option Direction;
  rp_pos : list Pos
}.

(** The dictionary [_state]; the key ["rope"] is present only when the
    rope has cells. *)
Record Snapshot : Type := mkSnapshot {
  s_level : Z;
  s_step : Z;
  s_timeout : Z;
  s_player : string;
  s_score : Z;
  s_lives : Z;
  s_digdug : Pos;
  s_enemies : list EnemySummary;
  s_rocks : list RockSummary;
  s_rope : option RopeSummary
}.

Record Info : Type := mkInfo {
  i_size : Z * Z;
  i_map : list (list Z);
  i_fps : Z;
  i_timeout : Z;
  i_lives : Z;
  i_score : Z;
  i_level : Z
}.

(** ** The match *)

(** The attributes of a [Game] object.  [_player_name] and [_digdug] are
    first assigned by [start], [_lastkeypress] and [_rocks] by
    [next_level]; they are read only by code that [next_frame] guards
    with [_running], which [start] alone sets.  [Game_init] below gives
    them inert initial values. *)
Record Game : Type := mkGame {
  g_initial_level : Z;
  g_running : bool;
  g_timeout : Z;
  g_score : Z;
  g_step : Z;
  g_total_steps : Z;
  g_state : option Snapshot;
  g_initial_lives : Z;
  g_map : Map;
  g_enemies : list Enemy;
  g_rope : Rope;
  g_player_name : string;
  g_digdug : DigDug;
  g_lastkeypress : string;
  g_rocks : list Rock
}.

Definition set_running (v : bool) (g : Game) : Game :=
  mkGame (g_initial_level g) v (g_timeout g) (g_score g) (g_step g)
    (g_total_steps g) (g_state g) (g_initial_lives g) (g_map g)
    (g_enemies g) (g_rope g) (g_player_name g) (g_digdug g)
    (g_lastkeypress g) (g_rocks g).

Definition set_score (v : Z) (g : Game) : Game :=
  mkGame (g_initial_level g) (g_running g) (g_timeout g) v (g_step g)
    (g_total_steps g) (g_state g) (g_initial_lives g) (g_map g)
    (g_enemies g) (g_rope g) (g_player_name g) (g_digdug g)
    (g_lastkeypress g) (g_rocks g).

Definition set_step (v : Z) (g : Game) : Game :=
  mkGame (g_initial_level g) (g_running g) (g_timeout g) (g_score g) v
    (g_total_steps g) (g_state g) (g_initial_lives g) (g_map g)
    (g_enemies g) (g_rope g) (g_player_name g) (g_digdug g)
    (g_lastkeypress g) (g_rocks g).

Definition set_total_steps (v : Z) (g : Game) : Game :=
  mkGame (g_initial_level g) (g_running g) (g_timeout g) (g_score g)
    (g_step g) v (g_state g) (g_initial_lives g) (g_map g)
    (g_enemies g) (g_rope g) (g_player_name g) (g_digdug g)
    (g_lastkeypress g) (g_rocks g).

Definition set_state (v : option Snapshot) (g : Game) : Game :=
  mkGame (g_initial_level g) (g_running g) (g_timeout g) (g_score g)
    (g_step g) (g_total_steps g) v (g_initial_lives g) (g_map g)
    (g_enemies g) (g_rope g) (g_player_name g) (g_digdug g)
    (g_lastkeypress g) (g_rocks g).

Definition set_map (v : Map) (g : Game) : Game :=
  mkGame (g_initial_level g) (g_running g) (g_timeout g) (g_score g)
    (g_step g) (g_total_steps g) (g_state g) (g_initial_lives g) v
    (g_enemies g) (g_rope g) (g_player_name g) (g_digdug g)
    (g_lastkeypress g) (g_rocks g).

Definition set_enemies (v : list Enemy) (g : Game) : Game :=
  mkGame (g_initial_level g) (g_running g) (g_timeout g) (g_score g)
    (g_step g) (g_total_steps g) (g_state g) (g_initial_lives g) (g_map g)
    v (g_rope g) (g_player_name g) (g_digdug g)
    (g_lastkeypress g) (g_rocks g).

Definition set_rope (v : Rope) (g : Game) : Game :=
  mkGame (g_initial_level g) (g_running g) (g_timeout g) (g_score g)
    (g_step g) (g_total_steps g) (g_state g) (g_initial_lives g) (g_map g)
    (g_enemies g) v (g_player_name g) (g_digdug g)
    (g_lastkeypress g) (g_rocks g).

Definition set_player_name (v : string) (g : Game) : Game :=
  mkGame (g_initial_level g) (g_running g) (g_timeout g) (g_score g)
    (g_step g) (g_total_steps g) (g_state g) (g_initial_lives g) (g_map g)
    (g_enemies g) (g_rope g) v (g_digdug g)
    (g_lastkeypress g) (g_rocks g).

Definition set_digdug (v : DigDug) (g : Game) : Game :=
  mkGame (g_initial_level g) (g_running g) (g_timeout g) (g_score g)
    (g_step g) (g_total_steps g) (g_state g) (g_initial_lives g) (g_map g)
    (g_enemies g) (g_rope g) (g_player_name g) v
    (g_lastkeypress g) (g_rocks g).

Definition set_lastkeypress (v : string) (g : Game) : Game :=
  mkGame (g_initial_level g) (g_running g) (g_timeout g) (g_score g)
    (g_step g) (g_total_steps g) (g_state g) (g_initial_lives g) (g_map g)
    (g_enemies g) (g_rope g) (g_player_name g) (g_digdug g)
    v (g_rocks g).

Definition set_rocks (v : list Rock) (g : Game) : Game :=
  mkGame (g_initial_level g) (g_running g) (g_timeout g) (g_score g)
    (g_step g) (g_total_steps g) (g_state g) (g_initial_lives g) (g_map g)
    (g_enemies g) (g_rope g) (g_player_name g) (g_digdug g)
    (g_lastkeypress g) v.

(** Exceptions that leave a method of [Game]: the failed lookup in
    [LEVEL_ENEMIES].  The state carried by [Raised] is the object as the
    exception leaves it, with the assignments made before the raise. *)
Inductive Exn : Type := KeyError (key : Z).

Inductive Outcome (A : Type) : Type :=
| Ok (a : A) (g : Game)
| Raised (e : Exn) (g : Game).
Arguments Ok {A} a g.
Arguments Raised {A} e g.

(** The state an outcome ends in. *)
Definition final {A : Type} (o : Outcome A) : Game :=
  match o with Ok _ g => g | Raised _ g => g end.

(** [LEVEL_ENEMIES]. *)
Definition LEVEL_ENEMIES : gmap Z (list EnemyKind) :=
  list_to_map
    [ (1, replicate 2 Fygar ++ replicate 1 Pooka);
      (2, replicate 3 Fygar ++ replicate 2 Pooka);
      (3, replicate 5 Fygar ++ replicate 2 Pooka) ].

Section GameOps.
Context `{!Collaborators}.

(** [Game.__init__(level, lives, timeout, size)]. *)
Definition Game_init (level lives timeout : Z) (size : Z * Z) : Game :=
  let mapa := Map_empty size in
  {| g_initial_level := level;
     g_running := false;
     g_timeout := timeout;
     g_score := 0;
     g_step := 0;
     g_total_steps := 0;
     g_state := None;
     g_initial_lives := lives;
     g_map := mapa;
     g_enemies := [];
     g_rope := Rope_init mapa;
     g_player_name := EmptyString;
     g_digdug := mkDigDug (0, 0) (0, 0) 0 DigDug_new_direction;
     g_lastkeypress := EmptyString;
     g_rocks := [] |}.

(** [Game.stop()]. *)
Definition stop (g : Game) : Game :=
  set_running false (set_total_steps (g_total_steps g + g_step g) g).

(** [Game.quit()]. *)
Definition quit (g : Game) : Game := set_running false g.

(** [Game.keypress(key)]. *)
Definition keypress (key : string) (g : Game) : Game :=
  set_lastkeypress key g.

(** [Game.next_level(level)].  The body that would stop a won match is
    a string literal in the source, so the lookup [LEVEL_ENEMIES[level]]
    is reached for every level and raises for a missing key, after the
    assignments before it. *)
Definition next_level (level : Z) (g : Game) : Outcome unit :=
  let g1 := set_map (Map_level level (m_size (g_map g))) g in
  let g2 := set_digdug (DigDug_respawn (g_digdug g1)) g1 in
  let g3 := set_total_steps (g_total_steps g2 + g_step g2) g2 in
  let g4 := set_step 0 g3 in
  let g5 := set_lastkeypress EmptyString g4 in
  match LEVEL_ENEMIES !! level with
  | None => Raised (KeyError level) g5
  | Some kinds =>
      let g6 :=
        set_enemies
          (imap (fun i '(t, p) => Enemy_new t p (Z.of_nat i))
             (zip kinds (m_enemies_spawn (g_map g5)))) g5 in
      Ok tt
        (set_rocks
           (imap (fun i p => mkRock (Z.of_nat i) p) (m_rocks (g_map g6)))
           g6)
  end.

(** [Game.start(player_name)]. *)
Definition start (player_name : string) (g : Game) : Outcome unit :=
  let g1 := set_player_name player_name g in
  let g2 := set_running true g1 in
  let g3 := set_total_steps 0 g2 in
  let g4 := set_score INITIAL_SCORE g3 in
  let g5 :=
    set_digdug
      (mkDigDug (m_digdug_spawn (g_map g4)) (m_digdug_spawn (g_map g4))
         (g_initial_lives g4) DigDug_new_direction) g4 in
  next_level (g_initial_level g5) g5.

(** The weapon branch of [update_digdug]: shoot, test for a hit, and
    replace the rope by a new one when [hit] returned [True].  The
    first component is what [hit] returned. *)
Definition weapon_trigger (g : Game) : bool * Game :=
  let r :=
    Rope_shoot (g_rope g) (d_pos (g_digdug g)) (d_direction (g_digdug g)) in
  let '(found, enemies) := Rope_hit r (g_enemies g) in
  (found,
   set_rope (if found then Rope_init (g_map g) else r)
     (set_enemies enemies g)).

(** The movement branch of [update_digdug]. *)
Definition player_step (key : string) (g : Game) : Game :=
  let g1 :=
    if str_in key "wasd" && negb (bool_decide (key = EmptyString)) then
      set_rope (Rope_init (g_map g)) g
    else g in
  set_digdug
    (DigDug_move (g_map g1) (key2direction key) (g_enemies g1) (g_rocks g1)
       (g_digdug g1)) g1.

(** [Game.update_digdug()].  A failed assertion is caught and logged;
    the [finally] clause clears the key in every case. *)
Definition update_digdug (g : Game) : Outcome unit :=
  let key := g_lastkeypress g in
  let g1 :=
    if str_in key "wasdAB" || bool_decide (key = EmptyString) then
      if isupper key then
        if str_in key "AB" then snd (weapon_trigger g) else g
      else player_step key g
    else g in
  let g2 := set_lastkeypress EmptyString g1 in
  if Z.of_nat (length (g_enemies g2)) <? 0 then
    next_level (m_level (g_map g2) + 1) g2
  else Ok tt g2.

(** [Game.kill_digdug()]. *)
Definition kill_digdug (g : Game) : Game :=
  let g1 := set_digdug (DigDug_kill (g_digdug g)) g in
  if d_lives (g_digdug g1) >? 0 then
    let g2 := set_digdug (DigDug_respawn (g_digdug g1)) g1 in
    set_enemies
      ((fun e =>
          if in_vital_space (d_pos (g_digdug g2)) (e_pos e)
          then Enemy_respawn e else e) <$> g_enemies g2) g2
  else stop g1.

(** One iteration of the first loop of [collision], on the enemy at
    index [i] of the current list. *)
Definition collide_enemy (g : Game) (i : nat) : Game :=
  match g_enemies g !! i with
  | Some e =>
      if bool_decide (e_pos e = d_pos (g_digdug g)) then
        let g1 := kill_digdug g in
        set_enemies (alter Enemy_respawn i (g_enemies g1)) g1
      else g
  | None => g
  end.

(** One iteration of the inner loop of [collision] for rock [r]. *)
Definition crush (r : Rock) (g : Game) (i : nat) : Game :=
  match g_enemies g !! i with
  | Some e =>
      if bool_decide (r_pos r = e_pos e) then
        let e' := Enemy_kill true e in
        set_score (g_score g + Enemy_points (m_ver_tiles (g_map g)) e')
          (set_enemies (<[i := e']> (g_enemies g)) g)
      else g
  | None => g
  end.

(** One iteration of the loop over the rocks. *)
Definition collide_rock (g : Game) (r : Rock) : Game :=
  let g1 :=
    if bool_decide (r_pos r = d_pos (g_digdug g)) then kill_digdug g
    else g in
  foldl (crush r) g1 (seq 0%nat (length (g_enemies g1))).

(** [Game.collision()]. *)
Definition collision (g : Game) : Game :=
  let g1 := foldl collide_enemy g (seq 0%nat (length (g_enemies g))) in
  foldl collide_rock g1 (g_rocks g1).

(** The loops of [next_frame] that call the movement collaborators. *)
Definition move_enemy (g : Game) (i : nat) : Game :=
  match g_enemies g !! i with
  | Some enemy =>
      if e_alive enemy then
        set_enemies
          (<[i := Enemy_move (g_map g) (g_digdug g) (g_enemies g)
                    (g_rocks g) enemy]> (g_enemies g)) g
      else g
  | None => g
  end.

Definition move_enemies (g : Game) : Game :=
  foldl move_enemy g (seq 0%nat (length (g_enemies g))).

Definition move_rock (g : Game) (i : nat) : Game :=
  match g_rocks g !! i with
  | Some rock =>
      set_rocks
        (<[i := Rock_move (g_map g) (g_digdug g) (g_rocks g) rock]>
           (g_rocks g)) g
  | None => g
  end.

Definition move_rocks (g : Game) : Game :=
  foldl move_rock g (seq 0%nat (length (g_rocks g))).

(** The score line of [next_frame]: the points of every enemy of the
    collection that is not alive. *)
Definition dead_points (g : Game) : Z :=
  foldr Z.add 0
    (Enemy_points (m_ver_tiles (g_map g)) <$>
       filter (fun e => e_alive e = false) (g_enemies g)).

Definition credit_dead (g : Game) : Game :=
  set_score (g_score g + dead_points g) g.

(** The filter line of [next_frame]. *)
Definition remove_gone (g : Game) : Game :=
  set_enemies
    (filter (fun e => e_alive e = true /\ e_exit e = false) (g_enemies g))
    g.

(** The dictionary assembled at the end of [next_frame]. *)
Definition snapshot (g : Game) : Snapshot :=
  {| s_level := m_level (g_map g);
     s_step := g_step g;
     s_timeout := g_timeout g;
     s_player := g_player_name g;
     s_score := g_score g;
     s_lives := d_lives (g_digdug g);
     s_digdug := d_pos (g_digdug g);
     s_enemies :=
       (fun e => mkEnemySummary (e_name e) (e_id e) (e_pos e))
         <$> g_enemies g;
     s_rocks := (fun r => mkRockSummary (r_id r) (r_pos r)) <$> g_rocks g;
     s_rope :=
       match rope_pos (g_rope g) with
       | [] => None
       | _ :: _ =>
           Some (mkRopeSummary (rope_dir (g_rope g)) (rope_pos (g_rope g)))
       end |}.

(** The first statements of a running [next_frame]: count the step and
    stop the match on the step that equals the timeout. *)
Definition count_step (g : Game) : Game :=
  let g1 := set_step (g_step g + 1) g in
  if bool_decide (g_step g1 = g_timeout g1) then stop g1 else g1.

(** What [next_frame] does after [update_digdug] returned: the enemies
    and the rocks move, the dead are credited and removed, collisions are
    resolved, and the snapshot is stored in [_state]. *)
Definition finish_frame (g : Game) : Game :=
  let g1 := move_enemies g in
  let g2 := move_rocks g1 in
  let g3 := credit_dead g2 in
  let g4 := remove_gone g3 in
  let g5 := collision g4 in
  set_state (Some (snapshot g5)) g5.

(** [Game.next_frame()], without the wait at its entry.  The result is
    the returned dictionary, or [None] while the match is not running. *)
Definition next_frame (g : Game) : Outcome (option Snapshot) :=
  if negb (g_running g) then Ok None g
  else
    match update_digdug (count_step g) with
    | Raised e g' => Raised e g'
    | Ok _ g1 =>
        let g2 := finish_frame g1 in
        Ok (g_state g2) g2
    end.

(** [Game.info()]. *)
Definition info (g : Game) : Info :=
  {| i_size := m_size (g_map g);
     i_map := m_map (g_map g);
     i_fps := GAME_SPEED;
     i_timeout := TIMEOUT;
     i_lives := LIVES;
     i_score := g_score g;
     i_level := m_level (g_map g) |}.

(** The tests of [update_digdug] that lead to the weapon branch: the key
    passes the assertion, is upper case and is a trigger. *)
Definition trigger_accepted (key : string) : bool :=
  (str_in key "wasdAB" || bool_decide (key = EmptyString)) &&
  isupper key && str_in key "AB".

(** Whether the [next_frame] that starts in [g] calls [Rope.hit] and
    gets [True]. *)
Definition hit_reported (g : Game) : bool :=
  trigger_accepted (g_lastkeypress g) && (weapon_trigger (count_step g)).1.

(** The player loses at most one life in one run of [collision]. *)
Definition first_collision_only (g : Game) : Prop :=
  d_lives (g_digdug g) - 1 <= d_lives (g_digdug (collision g)).

(** [frame g g']: from [g] to [g'] the rope, the configuration, the
    terrain, the step counter and the key buffer are untouched, and a
    stopped match is still stopped. *)
Record frame (g g' : Game) : Prop := mkFrame {
  frame_rope : g_rope g' = g_rope g;
  frame_timeout : g_timeout g' = g_timeout g;
  frame_lives0 : g_initial_lives g' = g_initial_lives g;
  frame_map : g_map g' = g_map g;
  frame_step : g_step g' = g_step g;
  frame_name : g_player_name g' = g_player_name g;
  frame_key : g_lastkeypress g' = g_lastkeypress g;
  frame_stopped : g_running g = false -> g_running g' = false
}.




(** A session: each symbol is delivered by [keypress] and followed by
    one [next_frame]. *)
Definition tick (key : string) (g : Game) : Game :=
  final (next_frame (keypress key g)).

Definition play (keys : list string) (g : Game) : Game :=
  foldl (fun g key => tick key g) g keys.
End GameOps.

(** ** A concrete arena

    Simple collaborators on which the match can be run: an open
    rectangular terrain, a player that steps one cell, enemies that stand
    still, rocks that fall one cell per tick, a flat bonus for a crushed
    enemy and a depth-tiered value otherwise. *)
Module Arena.

Definition step_cell (size : Z * Z) (p : Pos) (d : Direction) : Pos :=
  let '(x, y) := p in
  let q :=
    match d with
    | NORTH => (x, y - 1)
    | EAST => (x + 1, y)
    | SOUTH => (x, y + 1)
    | WEST => (x - 1, y)
    end in
  if (0 <=? q.1) && (q.1 <? size.1) && (0 <=? q.2) && (q.2 <? size.2)
  then q else p.

Definition empty_map (size : Z * Z) : Map :=
  {| m_size := size; m_level := 1; m_ver_tiles := size.2;
     m_digdug_spawn := (1, 1); m_enemies_spawn := []; m_rocks := [];
     m_map := [] |}.

(** Every level has the same layout: seven enemy slots, and one rock
    resting one cell above the first slot. *)
Definition level_map (level : Z) (size : Z * Z) : Map :=
  {| m_size := size; m_level := level; m_ver_tiles := size.2;
     m_digdug_spawn := (1, 1);
     m_enemies_spawn :=
       [(10, 10); (20, 10); (10, 20); (20, 20); (15, 15); (25, 25); (5, 25)];
     m_rocks := [(10, 9)];
     m_map := [] |}.

Definition player_move (m : Map) (od : option Direction)
    (enemies : list Enemy) (rocks : list Rock) (d : DigDug) : DigDug :=
  match od with
  | Some dir =>
      mkDigDug (step_cell (m_size m) (d_pos d) dir) (d_spawn d) (d_lives d)
        dir
  | None => d
  end.

Definition rock_fall (m : Map) (d : DigDug) (rocks : list Rock) (r : Rock)
    : Rock :=
  mkRock (r_id r) (step_cell (m_size m) (r_pos r) SOUTH).

Definition points (ver_tiles : Z) (e : Enemy) : Z :=
  if e_crushed e then ROCK_KILL_POINTS
  else (4 - (e_pos e).2 * 4 / ver_tiles) * 100.

Definition near (a b : Pos) : bool :=
  (a.1 - b.1) * (a.1 - b.1) + (a.2 - b.2) * (a.2 - b.2) <? 9.

#[export] Instance arena : Collaborators :=
  {| calc_pos := fun m p d _ => step_cell (m_size m) p d;
     Map_empty := empty_map;
     Map_level := level_map;
     DigDug_new_direction := EAST;
     DigDug_move := player_move;
     Enemy_move := fun _ _ _ _ e => e;
     Rock_move := rock_fall;
     Enemy_points := points;
     in_vital_space := near |}.

(** A match on level 1 with the given lives and timeout, started. *)
Definition fresh (lives timeout : Z) : Game :=
  final (start "p1" (Game_init 1 lives timeout MAP_SIZE)).

(** A rope of one cell locked to the north, as it is after one shot
    northwards from (5, 5). *)
Definition rope_north : Rope :=
  Rope_shoot (Rope_init (level_map 1 MAP_SIZE)) (5, 5) NORTH.

(** The rope after three shots eastwards from (5, 5): full length. *)
Definition rope_full : Rope :=
  Rope_shoot
    (Rope_shoot (Rope_shoot (Rope_init (level_map 1 MAP_SIZE)) (5, 5) EAST)
       (5, 5) EAST) (5, 5) EAST.

(** The rope after one shot westwards from the western border: the
    step is blocked, and its one cell is the origin itself. *)
Definition rope_blocked : Rope :=
  Rope_shoot (Rope_init (level_map 1 MAP_SIZE)) (0, 5) WEST.

(** A started match with an enemy on the cell east of the player and a
    trigger key in the buffer. *)
Definition aimed : Game :=
  keypress "A"
    (set_enemies [mkEnemy 0 "Pooka" (2, 1) (20, 10) true false false]
       (fresh 3 TIMEOUT)).

(** A player with three lives sharing its cell with two enemies and a
    rock. *)
Definition crowded_alive : Game :=
  let g := fresh 3 TIMEOUT in
  set_digdug (mkDigDug (5, 5) (1, 1) 3 EAST)
    (set_rocks [mkRock 0 (5, 5)]
       (set_enemies
          [ mkEnemy 0 "Fygar" (5, 5) (10, 10) true false false;
            mkEnemy 1 "Pooka" (5, 5) (20, 10) true false false ] g)).

(** A started match on level 1 after its last enemy is gone. *)
Definition cleared : Game := set_enemies [] (fresh 3 TIMEOUT).

(** A player on its last life sharing its cell with two enemies. *)
Definition crowded : Game :=
  let g := fresh 1 TIMEOUT in
  set_digdug (mkDigDug (5, 5) (1, 1) 1 EAST)
    (set_enemies
       [ mkEnemy 0 "Fygar" (5, 5) (10, 10) true false false;
         mkEnemy 1 "Pooka" (5, 5) (20, 10) true false false ] g).

End Arena.

(** ** Invariants and further runs *)

(** What [Rope.shoot] keeps of a rope: its cells are pairwise distinct
    and at most [MAX_LEN_ROPE], and a rope with cells has a locked
    direction. *)
Definition rope_well_formed (r : Rope) : Prop :=
  NoDup (rope_pos r) /\
  Z.of_nat (length (rope_pos r)) <= MAX_LEN_ROPE /\
  (rope_pos r <> [] -> is_Some (rope_dir r)).

(** The same for the value under the key ["rope"] of a snapshot, which a
    viewer indexes at both ends and by its direction. *)
Definition rope_summary_well_formed (o : option RopeSummary) : Prop :=
  match o with
  | None => True
  | Some rs =>
      rp_pos rs <> [] /\ NoDup (rp_pos rs) /\
      Z.of_nat (length (rp_pos rs)) <= MAX_LEN_ROPE /\
      is_Some (rp_dir rs)
  end.

(** What [collision] never writes of an enemy. *)
Definition enemy_static (e : Enemy) : Z * string * Pos * bool :=
  (e_id e, e_name e, e_spawn e, e_exit e).

(** [same_cast g g']: from [g] to [g'] the rocks are untouched, the
    enemies are the same individuals in the same order, and the player
    has the same spawn point and facing and no more lives than before. *)
Record same_cast (g g' : Game) : Prop := mkSameCast {
  cast_rocks : g_rocks g' = g_rocks g;
  cast_enemies : enemy_static <$> g_enemies g' = enemy_static <$> g_enemies g;
  cast_lives : d_lives (g_digdug g') <= d_lives (g_digdug g);
  cast_spawn : d_spawn (g_digdug g') = d_spawn (g_digdug g);
  cast_direction : d_direction (g_digdug g') = d_direction (g_digdug g)
}.

(** A second arena, with the point values bounded below: a flat 200
    for a kill by the rope, [ROCK_KILL_POINTS] for a crushed enemy. *)
Module Flat.

Definition points (ver_tiles : Z) (e : Enemy) : Z :=
  if e_crushed e then ROCK_KILL_POINTS else 200.

#[export] Instance flat : Collaborators :=
  {| calc_pos := fun m p d _ => Arena.step_cell (m_size m) p d;
     Map_empty := Arena.empty_map;
     Map_level := Arena.level_map;
     DigDug_new_direction := EAST;
     DigDug_move := Arena.player_move;
     Enemy_move := fun _ _ _ _ e => e;
     Rock_move := Arena.rock_fall;
     Enemy_points := points;
     in_vital_space := Arena.near |}.

Definition fresh : Game :=
  final (start "p1" (Game_init 1 3 TIMEOUT MAP_SIZE)).

End Flat.

(** Further states of the first arena. *)
Module Runs.
Import Arena.

(** A match stopped by [quit] with a key left in the buffer. *)
Definition abandoned : Game := keypress "A" (quit (fresh 3 TIMEOUT)).

(** A match constructed for a level that [LEVEL_ENEMIES] does not have. *)
Definition beyond : Game := Game_init 7 3 TIMEOUT MAP_SIZE.

(** A started match with a key outside the alphabet in the buffer. *)
Definition mistyped : Game := keypress "x" (fresh 3 TIMEOUT).

(** A started match whose timeout is 0. *)
Definition unlimited : Game := fresh 3 0.

(** A player sharing its cell with two enemies on a level without
    rocks. *)
Definition rockless : Game := set_rocks [] crowded_alive.

(** The match after its first tick: the first enemy lies crushed. *)
Definition after_crush : Game := tick EmptyString (fresh 3 TIMEOUT).

End Runs.

(** ** What one run of [collision] does to an enemy *)

Section CrushAccount.
Context `{!Collaborators}.





End CrushAccount.

(** An arena without vital space: no enemy is ever evicted. *)
Module Bare.

#[export] Instance bare : Collaborators :=
  {| calc_pos := fun m p d _ => Arena.step_cell (m_size m) p d;
     Map_empty := Arena.empty_map;
     Map_level := Arena.level_map;
     DigDug_new_direction := EAST;
     DigDug_move := Arena.player_move;
     Enemy_move := fun _ _ _ _ e => e;
     Rock_move := Arena.rock_fall;
     Enemy_points := Arena.points;
     in_vital_space := fun _ _ => false |}.



End Bare.

(** States of the first arena in which a later collision still applies. *)
Module Clash.
Import Arena.







End Clash.

(** States of the first arena for the death policy. *)
Module Lives.
Import Arena.



End Lives.

(** ** The tick, phase by phase *)


Section TickReport.
Context `{!Collaborators}.



End TickReport.

(** An arena on patrol: the enemies step one cell east at every tick,
    and a rock rests above the cell east of the first enemy. *)
Module Patrol.

Definition level_map (level : Z) (size : Z * Z) : Map :=
  {| m_size := size; m_level := level; m_ver_tiles := size.2;
     m_digdug_spawn := (1, 1);
     m_enemies_spawn := [(10, 10); (20, 10); (10, 20)];
     m_rocks := [(11, 9)];
     m_map := [] |}.

Definition march (m : Map) (d : DigDug) (enemies : list Enemy)
    (rocks : list Rock) (e : Enemy) : Enemy :=
  mkEnemy (e_id e) (e_name e) (Arena.step_cell (m_size m) (e_pos e) EAST)
    (e_spawn e) (e_alive e) (e_exit e) (e_crushed e).

#[export] Instance patrol : Collaborators :=
  {| calc_pos := fun m p d _ => Arena.step_cell (m_size m) p d;
     Map_empty := Arena.empty_map;
     Map_level := level_map;
     DigDug_new_direction := EAST;
     DigDug_move := Arena.player_move;
     Enemy_move := march;
     Rock_move := Arena.rock_fall;
     Enemy_points := Arena.points;
     in_vital_space := Arena.near |}.


End Patrol.

(** * Properties *)

(** ** The rope state machine *)

Section RopeFacts.
Context `{!Collaborators}.

Lemma turned_spec (r : Rope) (direction : Direction) :
  turned r direction = true <->
  exists locked, rope_dir r = Some locked /\ locked <> NORTH /\
                 direction <> locked.
Proof.
  unfold turned, truthy. split.
  - intros Hg. apply andb_true_iff in Hg as [Ht Hd].
    apply bool_decide_eq_true in Hd.
    destruct (rope_dir r) as [locked|]; [|discriminate].
    exists locked. split; [reflexivity|].
    split; [destruct locked; [discriminate| | |]; discriminate|congruence].
  - intros (locked & -> & Hn & Hd).
    apply andb_true_iff. split.
    + destruct locked; [contradiction| | |]; reflexivity.
    + apply bool_decide_eq_true. congruence.
Qed.

Lemma Rope_shoot_turned (r : Rope) (pos : Pos) (direction : Direction) :
  turned r direction = true ->
  Rope_shoot r pos direction = mkRope [] None (rope_map r).
Proof. intros Hg. unfold Rope_shoot. rewrite Hg. reflexivity. Qed.

Lemma Rope_shoot_crossing (r : Rope) (pos : Pos) (direction : Direction) :
  turned r direction = false ->
  rope_next_cell r pos direction ∈ rope_pos r ->
  Rope_shoot r pos direction = mkRope [] None (rope_map r).
Proof.
  intros Hg Hin. unfold Rope_shoot. rewrite Hg.
  rewrite bool_decide_eq_true_2 by assumption. reflexivity.
Qed.

Lemma Rope_shoot_length (r : Rope) (pos : Pos) (direction : Direction) :
  Z.of_nat (length (rope_pos (Rope_shoot r pos direction))) <= MAX_LEN_ROPE.
Proof.
  unfold Rope_shoot, MAX_LEN_ROPE.
  destruct (turned r direction); [simpl; lia|].
  case_bool_decide; [simpl; lia|].
  destruct (Z.gtb_spec (Z.of_nat (length (rope_pos r ++
    [rope_next_cell r pos direction]))) 3); simpl; lia.
Qed.

Lemma Rope_shoot_map (r : Rope) (pos : Pos) (direction : Direction) :
  rope_map (Rope_shoot r pos direction) = rope_map r.
Proof.
  unfold Rope_shoot.
  repeat (case_match; simpl; try reflexivity).
Qed.

(** C10: when the appended cell makes the rope longer than three, only
    the cell list is cleared and the direction stays the one just
    locked; the two other reset paths (a turn, a crossing of the rope
    itself) clear the direction as well. *)
Theorem shoot_overflow_keeps_direction
    (r : Rope) (pos : Pos) (direction : Direction) :
  turned r direction = false ->
  rope_next_cell r pos direction ∉ rope_pos r ->
  Z.of_nat (length (rope_pos r ++ [rope_next_cell r pos direction]))
    > MAX_LEN_ROPE ->
  Rope_shoot r pos direction = mkRope [] (Some direction) (rope_map r) /\
  (forall r' pos' d', turned r' d' = true ->
     Rope_shoot r' pos' d' = mkRope [] None (rope_map r')) /\
  (forall r' pos' d', turned r' d' = false ->
     rope_next_cell r' pos' d' ∈ rope_pos r' ->
     Rope_shoot r' pos' d' = mkRope [] None (rope_map r')).
Proof.
  intros Hg Hfresh Hlong. split; [|split].
  - unfold Rope_shoot. rewrite Hg.
    rewrite bool_decide_eq_false_2 by assumption.
    destruct (Z.gtb_spec (Z.of_nat (length (rope_pos r ++
      [rope_next_cell r pos direction]))) MAX_LEN_ROPE); [reflexivity|lia].
  - intros. by apply Rope_shoot_turned.
  - intros. by apply Rope_shoot_crossing.
Qed.

Lemma Rope_hit_length (r : Rope) (enemies : list Enemy) :
  length (Rope_hit r enemies).2 = length enemies.
Proof.
  induction enemies as [|e rest IH]; simpl; [reflexivity|].
  case_bool_decide; simpl; [reflexivity|].
  destruct (Rope_hit r rest) as [found rest']. simpl in *. by rewrite IH.
Qed.
End RopeFacts.

Section RopeOnArena.
Import Arena.

(** C10, at the full rope of the arena: the fourth shot east empties the
    cell list and keeps east as the locked direction. *)
Lemma shoot_overflow_keeps_direction_witness :
  Rope_shoot Arena.rope_full (5, 5) EAST =
    mkRope [] (Some EAST) (rope_map Arena.rope_full) /\
  Rope_shoot Arena.rope_full (5, 5) SOUTH =
    mkRope [] None (rope_map Arena.rope_full) /\
  Rope_shoot Arena.rope_blocked (0, 5) WEST =
    mkRope [] None (rope_map Arena.rope_blocked).
Proof.
  destruct (shoot_overflow_keeps_direction Arena.rope_full (5, 5) EAST)
    as (Hover & Hturn & Hcross).
  - reflexivity.
  - vm_compute. intros Hin. repeat (apply elem_of_cons in Hin as [Hin|Hin];
      [discriminate|]). by apply elem_of_nil in Hin.
  - vm_compute. reflexivity.
  - split; [exact Hover|]. split.
    + apply Hturn. reflexivity.
    + apply Hcross; [reflexivity|]. vm_compute. apply elem_of_cons; by left.
Defined.

(** C4: a rope locked to the north is not reset by a shot to the east.
    The guard of [shoot] tests the truth value of the locked direction,
    and north, whose value is 0, is false: the shot extends the rope by
    the cell east of its tip and locks east. *)
Theorem shoot_turn_from_north_extends :
  rope_pos Arena.rope_north = [(5, 4)] /\
  rope_dir Arena.rope_north = Some NORTH /\
  turned Arena.rope_north EAST = false /\
  rope_pos (Rope_shoot Arena.rope_north (5, 5) EAST) = [(5, 4); (6, 4)] /\
  rope_dir (Rope_shoot Arena.rope_north (5, 5) EAST) = Some EAST.
Proof. repeat split. Qed.

End RopeOnArena.

(** ** What the phases of a tick leave alone *)

Section GameFacts.
Context `{!Collaborators}.

Lemma frame_refl (g : Game) : frame g g.
Proof. by constructor. Qed.

Lemma frame_trans (g1 g2 g3 : Game) : frame g1 g2 -> frame g2 g3 -> frame g1 g3.
Proof.
  intros [] []. constructor; try congruence. auto.
Qed.

Lemma foldl_frame {B : Type} (f : Game -> B -> Game) (l : list B) (g : Game) :
  (forall a b, frame a (f a b)) -> frame g (foldl f g l).
Proof.
  intros Hf. revert g. induction l as [|b l IH]; intros g; simpl.
  - apply frame_refl.
  - eapply frame_trans; [apply Hf|apply IH].
Qed.

Lemma foldl_invariant {B : Type} (P : Game -> Prop) (f : Game -> B -> Game)
    (l : list B) (g : Game) :
  P g -> (forall a b, b ∈ l -> P a -> P (f a b)) -> P (foldl f g l).
Proof.
  revert g. induction l as [|b l IH]; intros g Hg Hf; simpl; [assumption|].
  apply IH.
  - apply Hf; [apply elem_of_cons; by left|assumption].
  - intros a b' Hin. apply Hf. apply elem_of_cons. by right.
Qed.

Lemma stop_running (g : Game) : g_running (stop g) = false.
Proof. reflexivity. Qed.

Lemma kill_digdug_frame (g : Game) : frame g (kill_digdug g).
Proof.
  unfold kill_digdug. case_match; by constructor.
Qed.

Lemma collide_enemy_frame (g : Game) (i : nat) : frame g (collide_enemy g i).
Proof.
  unfold collide_enemy. repeat case_match; try apply frame_refl.
  eapply frame_trans; [apply kill_digdug_frame|]. by constructor.
Qed.

Lemma crush_frame (r : Rock) (g : Game) (i : nat) : frame g (crush r g i).
Proof.
  unfold crush. repeat case_match; try apply frame_refl. by constructor.
Qed.

Lemma collide_rock_frame (g : Game) (r : Rock) : frame g (collide_rock g r).
Proof.
  unfold collide_rock.
  eapply frame_trans; [|apply foldl_frame, crush_frame].
  case_match; [apply kill_digdug_frame|apply frame_refl].
Qed.

Lemma collision_frame (g : Game) : frame g (collision g).
Proof.
  unfold collision.
  eapply frame_trans; [|apply foldl_frame, collide_rock_frame].
  apply foldl_frame, collide_enemy_frame.
Qed.

Lemma move_enemies_frame (g : Game) : frame g (move_enemies g).
Proof.
  apply foldl_frame. intros a i. unfold move_enemy.
  repeat case_match; try apply frame_refl. by constructor.
Qed.

Lemma move_rocks_frame (g : Game) : frame g (move_rocks g).
Proof.
  apply foldl_frame. intros a i. unfold move_rock.
  case_match; [by constructor|apply frame_refl].
Qed.

Lemma finish_frame_frame (g : Game) : frame g (finish_frame g).
Proof.
  unfold finish_frame. cbv zeta.
  eapply frame_trans; [apply move_enemies_frame|].
  eapply frame_trans; [apply move_rocks_frame|].
  eapply frame_trans;
    [|eapply frame_trans; [apply collision_frame|by constructor]].
  by constructor.
Qed.

(** The guard [len(self._enemies) < 0] of [update_digdug] is false for
    every list: the method returns without calling [next_level], with the
    key buffer cleared, and changes nothing but the rope, the enemies hit
    by it and the player. *)
Lemma update_digdug_returns (g : Game) :
  exists g',
    update_digdug g = Ok tt g' /\
    g_timeout g' = g_timeout g /\
    g_initial_lives g' = g_initial_lives g /\
    g_map g' = g_map g /\
    g_step g' = g_step g /\
    g_running g' = g_running g /\
    g_player_name g' = g_player_name g /\
    g_lastkeypress g' = EmptyString /\
    g_rocks g' = g_rocks g /\
    length (g_enemies g') = length (g_enemies g) /\
    (g_rope g' = g_rope g \/ g_rope g' = Rope_init (g_map g) \/
     g_rope g' =
       Rope_shoot (g_rope g) (d_pos (g_digdug g)) (d_direction (g_digdug g))).
Proof.
  unfold update_digdug.
  set (g1 := if str_in _ _ || _ then _ else _).
  assert (Hg1 :
    g_timeout g1 = g_timeout g /\ g_initial_lives g1 = g_initial_lives g /\
    g_map g1 = g_map g /\ g_step g1 = g_step g /\
    g_running g1 = g_running g /\ g_player_name g1 = g_player_name g /\
    g_rocks g1 = g_rocks g /\
    length (g_enemies g1) = length (g_enemies g) /\
    (g_rope g1 = g_rope g \/ g_rope g1 = Rope_init (g_map g) \/
     g_rope g1 =
       Rope_shoot (g_rope g) (d_pos (g_digdug g))
         (d_direction (g_digdug g)))).
  { subst g1. unfold weapon_trigger, player_step.
    pose proof (Rope_hit_length
      (Rope_shoot (g_rope g) (d_pos (g_digdug g)) (d_direction (g_digdug g)))
      (g_enemies g)) as Hlen.
    destruct (Rope_hit _ (g_enemies g)) as [found enemies]. simpl in Hlen.
    repeat case_match; simpl; repeat split; auto. }
  destruct Hg1 as (? & ? & ? & ? & ? & ? & ? & Hlen & ?).
  exists (set_lastkeypress EmptyString g1).
  replace (Z.of_nat (length (g_enemies (set_lastkeypress EmptyString g1))) <? 0)
    with false by (symmetry; apply Z.ltb_ge; lia).
  simpl. repeat split; assumption.
Qed.

(** When the weapon branch runs and [hit] returns [True], the rope after
    [update_digdug] is a new, empty one. *)
Lemma update_digdug_hit (g : Game) :
  trigger_accepted (g_lastkeypress g) && (weapon_trigger g).1 = true ->
  g_rope (final (update_digdug g)) = Rope_init (g_map g).
Proof.
  intros Hk. unfold trigger_accepted in Hk.
  apply andb_true_iff in Hk as [Hk Hfound].
  apply andb_true_iff in Hk as [Hk Htrigger].
  apply andb_true_iff in Hk as [Hvalid Hupper].
  unfold update_digdug. rewrite Hvalid, Hupper, Htrigger.
  destruct (Z.ltb_spec
    (Z.of_nat (length (g_enemies
       (set_lastkeypress EmptyString (weapon_trigger g).2)))) 0)
    as [Hneg|_]; [lia|].
  unfold weapon_trigger in *.
  destruct (Rope_hit _ (g_enemies g)) as [found enemies].
  cbn in Hfound. subst found. reflexivity.
Qed.

End GameFacts.

(** ** One tick *)

Section TickFacts.
Context `{!Collaborators}.

Lemma snapshot_set_state (v : option Snapshot) (g : Game) :
  snapshot (set_state v g) = snapshot g.
Proof. reflexivity. Qed.

(** A running [next_frame] returns the snapshot of the state it ends in,
    and that state is [finish_frame] of what [update_digdug] left. *)
Lemma next_frame_running (g : Game) :
  g_running g = true ->
  exists u,
    update_digdug (count_step g) = Ok tt u /\
    next_frame g = Ok (Some (snapshot (finish_frame u))) (finish_frame u).
Proof.
  intros Hrun.
  destruct (update_digdug_returns (count_step g)) as (u & Hu & _).
  exists u. split; [assumption|].
  unfold next_frame. rewrite Hrun, Hu. simpl. reflexivity.
Qed.

Lemma count_step_rope (g : Game) : g_rope (count_step g) = g_rope g.
Proof. unfold count_step. case_bool_decide; reflexivity. Qed.

Lemma count_step_map (g : Game) : g_map (count_step g) = g_map g.
Proof. unfold count_step. case_bool_decide; reflexivity. Qed.

Lemma count_step_timeout (g : Game) : g_timeout (count_step g) = g_timeout g.
Proof. unfold count_step. case_bool_decide; reflexivity. Qed.

Lemma count_step_key (g : Game) :
  g_lastkeypress (count_step g) = g_lastkeypress g.
Proof. unfold count_step. case_bool_decide; reflexivity. Qed.

Lemma tick_rope_bound (key : string) (g : Game) :
  Z.of_nat (length (rope_pos (g_rope g))) <= MAX_LEN_ROPE ->
  Z.of_nat (length (rope_pos (g_rope (tick key g)))) <= MAX_LEN_ROPE.
Proof.
  intros Hlen. unfold tick.
  destruct (g_running (keypress key g)) eqn:Hrun.
  - destruct (next_frame_running _ Hrun) as (u & Hu & ->). cbn [final].
    rewrite (frame_rope _ _ (finish_frame_frame u)).
    destruct (update_digdug_returns (count_step (keypress key g)))
      as (u' & Hu' & _ & _ & _ & _ & _ & _ & _ & _ & _ & Hrope).
    rewrite Hu in Hu'. injection Hu' as <-.
    destruct Hrope as [-> | [-> | ->]].
    + by rewrite count_step_rope.
    + simpl. unfold MAX_LEN_ROPE. lia.
    + apply Rope_shoot_length.
  - unfold next_frame. rewrite Hrun. simpl. assumption.
Qed.

Lemma play_rope_bound (keys : list string) (g : Game) :
  Z.of_nat (length (rope_pos (g_rope g))) <= MAX_LEN_ROPE ->
  Z.of_nat (length (rope_pos (g_rope (play keys g)))) <= MAX_LEN_ROPE.
Proof.
  unfold play. revert g.
  induction keys as [|key keys IH]; intros g Hlen; simpl; [assumption|].
  apply IH. by apply tick_rope_bound.
Qed.

Lemma start_rope (name : string) (g0 g : Game) :
  start name g0 = Ok tt g -> g_rope g = g_rope g0.
Proof.
  unfold start, next_level. intros Hstart.
  destruct (LEVEL_ENEMIES !! _); [|discriminate].
  by injection Hstart as <-.
Qed.

(** C7: a [shoot] call never leaves more than three cells on the rope;
    through any sequence of input symbols, each followed by a tick, the
    rope keeps at most three cells, from any state in which it has at
    most three and so from every started match; and after a tick in which
    [hit] returned [True] the rope has no cell. *)
Theorem rope_bounded_and_cleared_on_hit :
  (forall r pos direction,
     Z.of_nat (length (rope_pos (Rope_shoot r pos direction)))
       <= MAX_LEN_ROPE) /\
  (forall keys g,
     Z.of_nat (length (rope_pos (g_rope g))) <= MAX_LEN_ROPE ->
     Z.of_nat (length (rope_pos (g_rope (play keys g)))) <= MAX_LEN_ROPE) /\
  (forall level lives timeout size name g keys,
     start name (Game_init level lives timeout size) = Ok tt g ->
     Z.of_nat (length (rope_pos (g_rope (play keys g)))) <= MAX_LEN_ROPE) /\
  (forall g,
     g_running g = true -> hit_reported g = true ->
     rope_pos (g_rope (final (next_frame g))) = []).
Proof.
  split; [exact Rope_shoot_length|]. split; [exact play_rope_bound|]. split.
  - intros level lives timeout size name g keys Hstart.
    apply play_rope_bound. rewrite (start_rope _ _ _ Hstart).
    simpl. unfold MAX_LEN_ROPE. lia.
  - intros g Hrun Hhit.
    destruct (next_frame_running _ Hrun) as (u & Hu & ->). cbn [final].
    rewrite (frame_rope _ _ (finish_frame_frame u)).
    unfold hit_reported in Hhit.
    rewrite <- (count_step_key g) in Hhit.
    apply update_digdug_hit in Hhit. rewrite Hu in Hhit. simpl in Hhit.
    rewrite Hhit. reflexivity.
Qed.

(** On the tick whose incremented step equals the timeout the match is
    stopped and [next_frame] still returns, with the state that the rest
    of the tick computes from the stopped match. *)
Lemma timeout_tick_returns (g : Game) :
  g_running g = true ->
  g_step g + 1 = g_timeout g ->
  exists snap g',
    next_frame g = Ok (Some snap) g' /\
    g_running g' = false /\
    g' = finish_frame
           (final (update_digdug (stop (set_step (g_step g + 1) g)))) /\
    g_lastkeypress g' = EmptyString /\
    g_step g' = g_timeout g /\
    g_state g' = Some snap /\
    snap = snapshot g'.
Proof.
  intros Hrun Hstep.
  destruct (next_frame_running _ Hrun) as (u & Hu & Hnext).
  assert (Hcount : count_step g = stop (set_step (g_step g + 1) g)).
  { unfold count_step. rewrite bool_decide_eq_true_2; [reflexivity|].
    simpl. assumption. }
  rewrite Hcount in Hu.
  destruct (update_digdug_returns (stop (set_step (g_step g + 1) g)))
    as (u' & Hu' & _ & _ & _ & Hstep' & Hrun' & _ & Hkey & _).
  rewrite Hu in Hu'. injection Hu' as <-.
  pose proof (finish_frame_frame u) as Hframe.
  exists (snapshot (finish_frame u)), (finish_frame u).
  split; [assumption|]. split.
  { apply (frame_stopped _ _ Hframe). rewrite Hrun'. reflexivity. }
  split; [by rewrite Hu|]. split.
  { rewrite (frame_key _ _ Hframe). assumption. }
  split.
  { rewrite (frame_step _ _ Hframe), Hstep'. simpl. assumption. }
  split; reflexivity.
Qed.

(** C9: for a match constructed with any level, life count, timeout and
    size and then started, [info] reports the module constants [TIMEOUT]
    and [LIVES], while the snapshot of the next tick reports the timeout
    the match was constructed with; for a timeout other than the constant
    the two disagree. *)
Theorem info_reports_module_constants
    (level lives timeout : Z) (size : Z * Z) (name : string) (g : Game) :
  start name (Game_init level lives timeout size) = Ok tt g ->
  g_timeout g = timeout /\
  g_initial_lives g = lives /\
  i_timeout (info g) = 3000 /\
  i_lives (info g) = 3 /\
  exists snap g',
    next_frame g = Ok (Some snap) g' /\
    s_timeout snap = timeout /\
    i_timeout (info g') = 3000 /\
    i_lives (info g') = 3 /\
    (timeout <> TIMEOUT -> s_timeout snap <> i_timeout (info g')).
Proof.
  intros Hstart.
  assert (Hg : g_timeout g = timeout /\ g_initial_lives g = lives /\
               g_running g = true).
  { unfold start, next_level in Hstart.
    destruct (LEVEL_ENEMIES !! _); [|discriminate].
    injection Hstart as <-. by simpl. }
  destruct Hg as (Htime & Hlives & Hrun).
  repeat (split; [done|]).
  destruct (next_frame_running _ Hrun) as (u & Hu & Hnext).
  exists (snapshot (finish_frame u)), (finish_frame u).
  split; [assumption|].
  assert (Hsnap : s_timeout (snapshot (finish_frame u)) = timeout).
  { unfold snapshot. cbn [s_timeout].
    rewrite (frame_timeout _ _ (finish_frame_frame u)).
    destruct (update_digdug_returns (count_step g)) as (u' & Hu' & Ht & _).
    rewrite Hu in Hu'. injection Hu' as <-.
    by rewrite Ht, count_step_timeout. }
  split; [assumption|]. repeat (split; [reflexivity|]).
  rewrite Hsnap. done.
Qed.

(** C3: no tick ever leaves the level: the enemy-count test of
    [update_digdug] asks for a negative length and [next_level] is never
    called, so the terrain (and its level) after [next_frame] is the one
    before, also when no enemy is left; and [next_level] called for the
    level after the last one of the table raises [KeyError] instead of
    stopping the match. *)
Theorem level_never_advances_and_level_four_raises (g : Game) :
  update_digdug g = Ok tt (final (update_digdug g)) /\
  g_map (final (update_digdug g)) = g_map g /\
  g_map (final (next_frame g)) = g_map g /\
  exists g', next_level (3 + 1) g = Raised (KeyError 4) g' /\
             g_running g' = g_running g.
Proof.
  destruct (update_digdug_returns g) as (u & Hu & _ & _ & Hmap & _).
  rewrite Hu. simpl. split; [reflexivity|]. split; [assumption|]. split.
  - destruct (g_running g) eqn:Hrun.
    + destruct (next_frame_running _ Hrun) as (v & Hv & ->). cbn [final].
      rewrite (frame_map _ _ (finish_frame_frame v)).
      destruct (update_digdug_returns (count_step g))
        as (v' & Hv' & _ & _ & Hmap' & _).
      rewrite Hv in Hv'. injection Hv' as <-.
      by rewrite Hmap', count_step_map.
    + unfold next_frame. rewrite Hrun. reflexivity.
  - eexists. split; [reflexivity|]. reflexivity.
Qed.



End TickFacts.

(** ** The collision resolver *)

Section CollisionFacts.
Context `{!Collaborators}.

Lemma kill_digdug_spare (g : Game) :
  1 < d_lives (g_digdug g) ->
  g_digdug (kill_digdug g) = DigDug_respawn (DigDug_kill (g_digdug g)) /\
  g_enemies (kill_digdug g) =
    ((fun e =>
        if in_vital_space (d_spawn (g_digdug g)) (e_pos e)
        then Enemy_respawn e else e) <$> g_enemies g) /\
  g_rocks (kill_digdug g) = g_rocks g /\
  g_running (kill_digdug g) = g_running g.
Proof.
  intros Hlives. unfold kill_digdug. simpl.
  destruct (Z.gtb_spec (d_lives (g_digdug g) - 1) 0); [|lia].
  by simpl.
Qed.








(** After the filter line of [next_frame] every enemy of the collection
    is alive and has not left the level. *)
Lemma remove_gone_alive (g : Game) :
  Forall (fun e => e_alive e = true /\ e_exit e = false)
    (g_enemies (remove_gone g)).
Proof.
  unfold remove_gone. simpl. apply Forall_forall. intros e He.
  by apply list_elem_of_filter in He as [He _].
Qed.

End CollisionFacts.

(** ** Runs on the arena *)

Section MatchOnArena.
Import Arena.

(** C7, on the arena: the rope stays within three cells through four
    shots, a step and another shot, from the started match and from the
    state with the full rope, and the tick in which the rope reaches the
    enemy next to the player ends with an empty rope. *)
Lemma rope_bounded_and_cleared_on_hit_witness :
  Z.of_nat
    (length
       (rope_pos
          (g_rope (play ["A"; "A"; "A"; "A"; "d"; "B"] (fresh 3 TIMEOUT)))))
    <= MAX_LEN_ROPE /\
  Z.of_nat
    (length
       (rope_pos
          (g_rope (play ["A"; "B"] (play ["A"; "A"; "A"] (fresh 3 TIMEOUT))))))
    <= MAX_LEN_ROPE /\
  rope_pos (g_rope (final (next_frame aimed))) = [].
Proof.
  destruct rope_bounded_and_cleared_on_hit
    as (_ & Hplay & Hsession & Hhit).
  split; [|split].
  - apply (Hsession 1 3 TIMEOUT MAP_SIZE "p1"). vm_compute. reflexivity.
  - apply Hplay. vm_compute. discriminate.
  - apply Hhit; vm_compute; reflexivity.
Defined.

(** The level is not left when no enemy remains: a started match whose
    collection is empty is, after a tick, still running on level 1. *)
Example cleared_level_stays :
  g_enemies (tick EmptyString cleared) = [] /\
  m_level (g_map (tick EmptyString cleared)) = 1 /\
  g_running (tick EmptyString cleared) = true.
Proof. vm_compute. repeat split. Qed.

(** C9, on the arena: a match constructed with five lives and timeout 50
    reports 3 and 3000 through [info] and 50 through its snapshot. *)
Lemma info_reports_module_constants_witness :
  g_timeout (fresh 5 50) = 50 /\
  g_initial_lives (fresh 5 50) = 5 /\
  i_timeout (info (fresh 5 50)) = 3000 /\
  i_lives (info (fresh 5 50)) = 3 /\
  exists snap g',
    next_frame (fresh 5 50) = Ok (Some snap) g' /\
    s_timeout snap = 50 /\
    i_timeout (info g') = 3000 /\
    i_lives (info g') = 3 /\
    (50 <> TIMEOUT -> s_timeout snap <> i_timeout (info g')).
Proof.
  apply (info_reports_module_constants 1 5 50 MAP_SIZE "p1").
  vm_compute. reflexivity.
Defined.

(** On its last life the player is not moved by the death policy, and
    the second enemy on its cell invokes the policy again: the player
    ends with -1 lives. *)
Lemma last_life_policy_runs_twice :
  d_lives (g_digdug crowded) = 1 /\
  d_lives (g_digdug (collision crowded)) = -1 /\
  ~ first_collision_only crowded.
Proof.
  split; [vm_compute; reflexivity|]. split; [vm_compute; reflexivity|].
  unfold first_collision_only. vm_compute. intros Hle. by apply Hle.
Qed.

(** C1: the first enemy of the arena is crushed by the rock that falls
    on it in the first tick.  [collision] credits it at once, and it stays
    in the collection, dead; the score line of the second tick credits it
    again before the filter removes it.  One death, two credits. *)
Theorem crushed_enemy_is_credited_twice :
  let g0 := fresh 3 TIMEOUT in
  let g1 := tick EmptyString g0 in
  let g2 := tick EmptyString g1 in
  (e_id <$> g_enemies g0 = [0; 1; 2] /\
   e_alive <$> g_enemies g0 = [true; true; true] /\
   g_score g0 = 0) /\
  (e_id <$> g_enemies g1 = [0; 1; 2] /\
   e_alive <$> g_enemies g1 = [false; true; true] /\
   g_score g1 = ROCK_KILL_POINTS) /\
  (e_id <$> g_enemies g2 = [1; 2] /\
   e_alive <$> g_enemies g2 = [true; true] /\
   g_score g2 = 2 * ROCK_KILL_POINTS).
Proof. vm_compute. repeat split. Qed.

(** C2: after the first tick of the arena the match is running and its
    enemy collection holds the enemy that [collision] killed after the
    filter had run. *)
Theorem dead_enemy_is_left_in_collection :
  let g1 := tick EmptyString (fresh 3 TIMEOUT) in
  g_running g1 = true /\
  exists e, e ∈ g_enemies g1 /\ e_alive e = false /\ e_exit e = false.
Proof.
  split; [vm_compute; reflexivity|].
  exists (mkEnemy 0 "Fygar" (10, 10) (10, 10) false false true).
  split; [|by split].
  vm_compute. apply elem_of_cons. by left.
Qed.

End MatchOnArena.

(** * Further properties of the rope *)

Section RopeMore.
Context `{!Collaborators}.

(** What a [shoot] call can return: a rope without cells, or the rope
    extended by the new cell and locked to the direction of the call. *)
Lemma Rope_shoot_cases (r : Rope) (pos : Pos) (direction : Direction) :
  rope_pos (Rope_shoot r pos direction) = [] \/
  (rope_pos (Rope_shoot r pos direction) =
     rope_pos r ++ [rope_next_cell r pos direction] /\
   rope_dir (Rope_shoot r pos direction) = Some direction /\
   rope_next_cell r pos direction ∉ rope_pos r).
Proof.
  unfold Rope_shoot.
  destruct (turned r direction); [by left|].
  case_bool_decide as Hin; [by left|].
  case_match; [by left|]. right. by simpl.
Qed.

Lemma Rope_shoot_well_formed (r : Rope) (pos : Pos) (direction : Direction) :
  NoDup (rope_pos r) -> rope_well_formed (Rope_shoot r pos direction).
Proof.
  intros Hnodup. split; [|split].
  - destruct (Rope_shoot_cases r pos direction) as [-> | (-> & _ & Hfresh)].
    + by apply NoDup_nil.
    + apply NoDup_app. split; [assumption|]. split; [|apply NoDup_singleton].
      intros x Hx Hx'. apply list_elem_of_singleton in Hx'. by subst.
  - apply Rope_shoot_length.
  - destruct (Rope_shoot_cases r pos direction) as [-> | (_ & -> & _)];
      [done|by eexists].
Qed.

(** X2: [shoot] keeps the cells of the rope pairwise distinct; it either
    leaves the rope without cells or appends exactly the one cell next to
    the tip, which was not on the rope, and locks the direction of the
    call. *)
Theorem Rope_shoot_keeps_cells_distinct
    (r : Rope) (pos : Pos) (direction : Direction) :
  NoDup (rope_pos r) ->
  NoDup (rope_pos (Rope_shoot r pos direction)) /\
  (rope_pos (Rope_shoot r pos direction) = [] \/
   (rope_pos (Rope_shoot r pos direction) =
      rope_pos r ++ [rope_next_cell r pos direction] /\
    rope_dir (Rope_shoot r pos direction) = Some direction /\
    rope_next_cell r pos direction ∉ rope_pos r)).
Proof.
  intros Hnodup. split.
  - by destruct (Rope_shoot_well_formed r pos direction Hnodup).
  - apply Rope_shoot_cases.
Qed.

(** X1: [hit] returns [True] exactly when some enemy stands on a cell of
    the rope.  Then the first such enemy in list order is the one killed
    (with no rock as cause) and every other enemy is left as it was; when
    no enemy stands on the rope the list is returned unchanged. *)
Theorem Rope_hit_kills_first_on_rope (r : Rope) (enemies : list Enemy) :
  (Rope_hit r enemies = (false, enemies) /\
   Forall (fun e => e_pos e ∉ rope_pos r) enemies) \/
  (exists before e after,
     enemies = before ++ e :: after /\
     Forall (fun x => e_pos x ∉ rope_pos r) before /\
     e_pos e ∈ rope_pos r /\
     Rope_hit r enemies = (true, before ++ Enemy_kill false e :: after)).
Proof.
  induction enemies as [|e rest IH]; simpl.
  - left. by split.
  - case_bool_decide as Hon.
    + right. exists [], e, rest. by repeat split.
    + destruct IH
        as [[Hmiss Hoff] | (before & x & after & -> & Hoff & Hx & Hhit)].
      * left. rewrite Hmiss. split; [reflexivity|by constructor].
      * right. exists (e :: before), x, after. rewrite Hhit.
        repeat split; try done. by constructor.
Qed.

End RopeMore.

Section RopeMoreOnArena.
Import Arena.

(** X2, on the arena: the rope locked north with its one cell. *)
Lemma Rope_shoot_keeps_cells_distinct_witness :
  NoDup (rope_pos (Rope_shoot rope_north (5, 5) EAST)) /\
  (rope_pos (Rope_shoot rope_north (5, 5) EAST) = [] \/
   (rope_pos (Rope_shoot rope_north (5, 5) EAST) =
      rope_pos rope_north ++ [rope_next_cell rope_north (5, 5) EAST] /\
    rope_dir (Rope_shoot rope_north (5, 5) EAST) = Some EAST /\
    rope_next_cell rope_north (5, 5) EAST ∉ rope_pos rope_north)).
Proof.
  apply Rope_shoot_keeps_cells_distinct.
  vm_compute. apply NoDup_singleton.
Defined.

End RopeMoreOnArena.

(** * Further properties of the tick *)

Section PhaseFacts.
Context `{!Collaborators}.

Lemma guard_never_fires {A : Type} (l : list A) :
  (Z.of_nat (length l) <? 0) = false.
Proof. apply Z.ltb_ge. lia. Qed.

Lemma foldl_fixed {B : Type} (f : Game -> B -> Game) (l : list B) (g : Game) :
  (forall b, b ∈ l -> f g b = g) -> foldl f g l = g.
Proof.
  induction l as [|b l IH]; intros Hf; simpl; [reflexivity|].
  rewrite Hf by (apply elem_of_cons; by left).
  apply IH. intros b' Hin. apply Hf. apply elem_of_cons. by right.
Qed.

(** [update_digdug] leaves the score, the counters and the stored
    snapshot alone. *)
Lemma update_digdug_keeps (g : Game) :
  g_score (final (update_digdug g)) = g_score g /\
  g_total_steps (final (update_digdug g)) = g_total_steps g /\
  g_state (final (update_digdug g)) = g_state g.
Proof.
  unfold update_digdug. cbv zeta. rewrite guard_never_fires.
  unfold weapon_trigger, player_step.
  destruct (Rope_hit _ (g_enemies g)) as [found enemies].
  repeat case_match; by simpl.
Qed.

Lemma count_step_step (g : Game) : g_step (count_step g) = g_step g + 1.
Proof. unfold count_step. case_bool_decide; reflexivity. Qed.

Lemma count_step_cast (g : Game) :
  g_enemies (count_step g) = g_enemies g /\
  g_rocks (count_step g) = g_rocks g /\
  g_digdug (count_step g) = g_digdug g /\
  g_score (count_step g) = g_score g.
Proof. unfold count_step. case_bool_decide; by simpl. Qed.

Lemma count_step_running (g : Game) :
  g_running (count_step g) =
    if bool_decide (g_step g + 1 = g_timeout g) then false else g_running g.
Proof. unfold count_step. simpl. case_bool_decide; reflexivity. Qed.

(** The movement loops change nothing but the entities they move, and
    keep their number. *)
Lemma move_enemies_rest (g : Game) :
  length (g_enemies (move_enemies g)) = length (g_enemies g) /\
  g_rocks (move_enemies g) = g_rocks g /\
  g_digdug (move_enemies g) = g_digdug g /\
  g_score (move_enemies g) = g_score g.
Proof.
  unfold move_enemies. apply foldl_invariant; [done|].
  intros a i _ (Hlen & Hrocks & Hd & Hscore). unfold move_enemy.
  repeat case_match; try done. simpl. by rewrite length_insert.
Qed.

Lemma move_rocks_rest (g : Game) :
  length (g_rocks (move_rocks g)) = length (g_rocks g) /\
  g_enemies (move_rocks g) = g_enemies g /\
  g_digdug (move_rocks g) = g_digdug g /\
  g_score (move_rocks g) = g_score g.
Proof.
  unfold move_rocks. apply foldl_invariant; [done|].
  intros a i _ (Hlen & Henemies & Hd & Hscore). unfold move_rock.
  case_match; try done. simpl. by rewrite length_insert.
Qed.

(** A dead enemy is not moved: it is, after the loop, what it was. *)
Lemma move_enemies_dead (g : Game) (k : nat) (e : Enemy) :
  g_enemies g !! k = Some e -> e_alive e = false ->
  g_enemies (move_enemies g) !! k = Some e.
Proof.
  intros Hlook Hdead. unfold move_enemies.
  apply foldl_invariant; [assumption|].
  intros a i _ Ha. unfold move_enemy.
  destruct (g_enemies a !! i) as [x|] eqn:Hi; [|assumption].
  destruct (e_alive x) eqn:Halive; [|assumption].
  simpl. rewrite list_lookup_insert_ne; [assumption|].
  intros ->. rewrite Ha in Hi. injection Hi as <-. congruence.
Qed.

Lemma same_cast_refl (g : Game) : same_cast g g.
Proof. by constructor. Qed.

Lemma same_cast_trans (g1 g2 g3 : Game) :
  same_cast g1 g2 -> same_cast g2 g3 -> same_cast g1 g3.
Proof. intros [] []. constructor; try congruence. lia. Qed.

Lemma static_insert (l : list Enemy) (i : nat) (e e' : Enemy) :
  l !! i = Some e -> enemy_static e' = enemy_static e ->
  enemy_static <$> <[i := e']> l = enemy_static <$> l.
Proof.
  intros Hlook Hsame. rewrite list_fmap_insert. apply list_insert_id.
  by rewrite list_lookup_fmap, Hlook, Hsame.
Qed.

Lemma static_alter_respawn (l : list Enemy) (i : nat) :
  enemy_static <$> alter Enemy_respawn i l = enemy_static <$> l.
Proof.
  rewrite (list_fmap_alter enemy_static Enemy_respawn id).
  - by apply list_alter_id.
  - by apply Forall_forall.
Qed.

Lemma kill_digdug_cast (g : Game) : same_cast g (kill_digdug g).
Proof.
  unfold kill_digdug. simpl. case_match; constructor; simpl; try done; try lia.
  rewrite <- list_fmap_compose. apply list_fmap_ext.
  intros i e _. simpl. by case_match.
Qed.

Lemma kill_digdug_score (g : Game) : g_score (kill_digdug g) = g_score g.
Proof. unfold kill_digdug. by case_match. Qed.

Lemma collide_enemy_cast (g : Game) (i : nat) : same_cast g (collide_enemy g i).
Proof.
  unfold collide_enemy. repeat case_match; try apply same_cast_refl.
  eapply same_cast_trans; [apply kill_digdug_cast|].
  constructor; simpl; try done. apply static_alter_respawn.
Qed.

Lemma crush_cast (r : Rock) (g : Game) (i : nat) : same_cast g (crush r g i).
Proof.
  unfold crush. destruct (g_enemies g !! i) as [e|] eqn:Hi;
    [|apply same_cast_refl].
  case_bool_decide; [|apply same_cast_refl].
  constructor; simpl; try done. by apply (static_insert _ _ e).
Qed.

Lemma foldl_cast {B : Type} (f : Game -> B -> Game) (l : list B) (g : Game) :
  (forall a b, same_cast a (f a b)) -> same_cast g (foldl f g l).
Proof.
  intros Hf. revert g. induction l as [|b l IH]; intros g; simpl.
  - apply same_cast_refl.
  - eapply same_cast_trans; [apply Hf|apply IH].
Qed.

Lemma collide_rock_cast (g : Game) (r : Rock) : same_cast g (collide_rock g r).
Proof.
  unfold collide_rock.
  eapply same_cast_trans; [|apply foldl_cast, crush_cast].
  case_match; [apply kill_digdug_cast|apply same_cast_refl].
Qed.

Lemma collision_cast (g : Game) : same_cast g (collision g).
Proof.
  unfold collision.
  eapply same_cast_trans; [|apply foldl_cast, collide_rock_cast].
  apply foldl_cast, collide_enemy_cast.
Qed.

Lemma collision_length (g : Game) :
  length (g_enemies (collision g)) = length (g_enemies g).
Proof.
  rewrite <- (length_fmap enemy_static (g_enemies (collision g))).
  rewrite (cast_enemies _ _ (collision_cast g)). apply length_fmap.
Qed.

(** The state a running tick ends in, phase by phase. *)
Lemma tick_running (key : string) (g : Game) :
  g_running g = true ->
  exists u,
    update_digdug (count_step (keypress key g)) = Ok tt u /\
    tick key g = finish_frame u.
Proof.
  intros Hrun.
  destruct (next_frame_running (keypress key g) Hrun) as (u & Hu & Hnext).
  exists u. split; [assumption|]. unfold tick. by rewrite Hnext.
Qed.

Lemma tick_stopped (key : string) (g : Game) :
  g_running g = false -> tick key g = keypress key g.
Proof.
  intros Hrun. unfold tick, next_frame.
  change (g_running (keypress key g)) with (g_running g).
  by rewrite Hrun.
Qed.

Lemma play_stopped (keys : list string) (g : Game) :
  g_running g = false -> g_running (play keys g) = false.
Proof.
  unfold play. revert g.
  induction keys as [|key keys IH]; intros g Hrun; simpl; [assumption|].
  apply IH. by rewrite tick_stopped.
Qed.

End PhaseFacts.

Section TickMore.
Context `{!Collaborators}.

Lemma Rope_init_well_formed (m : Map) : rope_well_formed (Rope_init m).
Proof.
  split; [apply NoDup_nil_2|]. split; [simpl; unfold MAX_LEN_ROPE; lia|done].
Qed.

Lemma tick_rope_well_formed (key : string) (g : Game) :
  rope_well_formed (g_rope g) -> rope_well_formed (g_rope (tick key g)).
Proof.
  intros Hwf. destruct (g_running g) eqn:Hrun.
  - destruct (tick_running key g Hrun) as (u & Hu & ->).
    rewrite (frame_rope _ _ (finish_frame_frame u)).
    destruct (update_digdug_returns (count_step (keypress key g)))
      as (u' & Hu' & _ & _ & _ & _ & _ & _ & _ & _ & _ & Hrope).
    rewrite Hu in Hu'. injection Hu' as <-.
    rewrite count_step_rope in Hrope.
    destruct Hrope as [-> | [-> | ->]].
    + exact Hwf.
    + apply Rope_init_well_formed.
    + apply Rope_shoot_well_formed. by destruct Hwf.
  - by rewrite tick_stopped.
Qed.

Lemma play_rope_well_formed (keys : list string) (g : Game) :
  rope_well_formed (g_rope g) -> rope_well_formed (g_rope (play keys g)).
Proof.
  unfold play. revert g.
  induction keys as [|key keys IH]; intros g Hwf; simpl; [assumption|].
  apply IH. by apply tick_rope_well_formed.
Qed.

Lemma snapshot_rope_well_formed (g : Game) :
  rope_well_formed (g_rope g) -> rope_summary_well_formed (s_rope (snapshot g)).
Proof.
  unfold rope_well_formed, snapshot. cbn [s_rope].
  destruct (rope_pos (g_rope g)) as [|cell cells]; [done|].
  intros (Hnodup & Hlen & Hdir). simpl. repeat split; try done.
  by apply Hdir.
Qed.

(** X3: through every sequence of input symbols played on a started
    match the rope keeps pairwise distinct cells, at most three of them,
    and a locked direction whenever it has a cell; and the rope entry of
    the snapshot a running tick returns, when present, has between one
    and three distinct cells and a direction. *)
Theorem snapshot_rope_is_well_formed
    (level lives timeout : Z) (size : Z * Z) (name : string) (g : Game)
    (keys : list string) (key : string) :
  start name (Game_init level lives timeout size) = Ok tt g ->
  rope_well_formed (g_rope (play keys g)) /\
  (g_running (play keys g) = true ->
   exists snap g',
     next_frame (keypress key (play keys g)) = Ok (Some snap) g' /\
     rope_summary_well_formed (s_rope snap)).
Proof.
  intros Hstart.
  assert (Hwf : rope_well_formed (g_rope (play keys g))).
  { apply play_rope_well_formed. rewrite (start_rope _ _ _ Hstart).
    apply Rope_init_well_formed. }
  split; [exact Hwf|]. intros Hrun.
  destruct (tick_running key _ Hrun) as (u & Hu & Htick).
  destruct (next_frame_running (keypress key (play keys g)) Hrun)
    as (u' & Hu' & Hnext).
  rewrite Hu in Hu'. injection Hu' as <-.
  exists (snapshot (finish_frame u)), (finish_frame u).
  split; [assumption|].
  apply snapshot_rope_well_formed. rewrite <- Htick.
  by apply tick_rope_well_formed.
Qed.

(** X4: a buffered key that is not a substring of ["wasdAB"] fails the
    assertion of [update_digdug]: the method returns normally and its
    only effect is to clear the buffer; neither the rope nor the player
    is touched and the player's [move] is not called. *)
Theorem update_digdug_ignores_invalid_key (g : Game) :
  str_in (g_lastkeypress g) "wasdAB" = false ->
  update_digdug g = Ok tt (set_lastkeypress EmptyString g).
Proof.
  intros Hbad. unfold update_digdug. cbv zeta.
  rewrite guard_never_fires, Hbad.
  rewrite bool_decide_eq_false_2; [reflexivity|].
  intros Hempty. rewrite Hempty in Hbad. discriminate.
Qed.

Lemma update_digdug_move (g : Game) (key : string) (d : Direction) :
  (key, d) ∈ [("w", NORTH); ("a", WEST); ("s", SOUTH); ("d", EAST)] ->
  g_lastkeypress g = key ->
  key2direction key = Some d /\
  update_digdug g =
    Ok tt
      (set_lastkeypress EmptyString
         (set_digdug
            (DigDug_move (g_map g) (Some d) (g_enemies g) (g_rocks g)
               (g_digdug g))
            (set_rope (Rope_init (g_map g)) g))).
Proof.
  intros Hin Hkey.
  unfold update_digdug, player_step. cbv zeta.
  rewrite guard_never_fires, Hkey.
  repeat (apply elem_of_cons in Hin as [Hin|Hin];
          [injection Hin as -> ->; by split|]).
  by apply elem_of_nil in Hin.
Qed.

(** X5: each of the four movement keys lets go of the rope.  With the
    key [w], [a], [s] or [d] in the buffer, [update_digdug] replaces the
    rope by a new one on the current terrain and then calls the player's
    [move] with north, west, south or east; the snapshot of a running tick
    with such a key carries no rope. *)
Theorem movement_key_drops_rope (g : Game) (key : string) (d : Direction) :
  (key, d) ∈ [("w", NORTH); ("a", WEST); ("s", SOUTH); ("d", EAST)] ->
  g_lastkeypress g = key ->
  key2direction key = Some d /\
  update_digdug g =
    Ok tt
      (set_lastkeypress EmptyString
         (set_digdug
            (DigDug_move (g_map g) (Some d) (g_enemies g) (g_rocks g)
               (g_digdug g))
            (set_rope (Rope_init (g_map g)) g))) /\
  (g_running g = true ->
   exists snap g',
     next_frame g = Ok (Some snap) g' /\
     g_rope g' = Rope_init (g_map g) /\
     s_rope snap = None).
Proof.
  intros Hin Hkey.
  destruct (update_digdug_move g key d Hin Hkey) as [Hdir Hupd].
  split; [exact Hdir|]. split; [exact Hupd|]. intros Hrun.
  destruct (next_frame_running g Hrun) as (u & Hu & Hnext).
  destruct (update_digdug_move (count_step g) key d Hin) as [_ Hu'];
    [by rewrite count_step_key|].
  rewrite Hu in Hu'. injection Hu' as Hu'.
  assert (Hrope : g_rope (finish_frame u) = Rope_init (g_map g)).
  { rewrite (frame_rope _ _ (finish_frame_frame u)), Hu'. simpl.
    by rewrite count_step_map. }
  exists (snapshot (finish_frame u)), (finish_frame u).
  split; [assumption|]. split; [assumption|].
  unfold snapshot. cbn [s_rope]. by rewrite Hrope.
Qed.

Lemma finish_frame_counts (u : Game) :
  length (g_rocks (finish_frame u)) = length (g_rocks u) /\
  (length (g_enemies (finish_frame u)) <= length (g_enemies u))%nat.
Proof.
  unfold finish_frame. cbv zeta. cbn [g_rocks g_enemies set_state].
  destruct (move_enemies_rest u) as (Hlen & Hrocks & _).
  destruct (move_rocks_rest (move_enemies u)) as (Hlen' & Henemies' & _).
  split.
  - rewrite (cast_rocks _ _ (collision_cast _)). simpl.
    by rewrite Hlen', Hrocks.
  - rewrite collision_length. simpl.
    etrans; [apply length_filter|]. by rewrite Henemies', Hlen.
Qed.

(** X6: a tick of a running match returns a snapshot, which is the one
    stored in [_state] and describes the state the tick ends in.  The
    tick adds exactly one to the step counter, which the snapshot
    reports, and empties the key buffer; it keeps the terrain, the
    timeout and the player name, neither creates nor removes a rock, and
    never adds an enemy. *)
Theorem running_tick_bookkeeping (g : Game) :
  g_running g = true ->
  exists snap g',
    next_frame g = Ok (Some snap) g' /\
    g_state g' = Some snap /\
    snap = snapshot g' /\
    g_step g' = g_step g + 1 /\
    s_step snap = g_step g + 1 /\
    g_lastkeypress g' = EmptyString /\
    g_map g' = g_map g /\
    g_timeout g' = g_timeout g /\
    g_player_name g' = g_player_name g /\
    length (g_rocks g') = length (g_rocks g) /\
    (length (g_enemies g') <= length (g_enemies g))%nat.
Proof.
  intros Hrun.
  destruct (next_frame_running g Hrun) as (u & Hu & Hnext).
  destruct (update_digdug_returns (count_step g))
    as (u' & Hu' & Htime & _ & Hmap & Hstep & _ & Hname & Hkey & Hrocks
        & Hlen & _).
  rewrite Hu in Hu'. injection Hu' as <-.
  pose proof (finish_frame_frame u) as Hframe.
  destruct (finish_frame_counts u) as [Hr He].
  destruct (count_step_cast g) as (Hce & Hcr & _).
  assert (Hs : g_step (finish_frame u) = g_step g + 1).
  { by rewrite (frame_step _ _ Hframe), Hstep, count_step_step. }
  exists (snapshot (finish_frame u)), (finish_frame u).
  split; [assumption|]. split; [reflexivity|]. split; [reflexivity|].
  split; [exact Hs|]. split; [exact Hs|]. split.
  { by rewrite (frame_key _ _ Hframe). }
  split.
  { by rewrite (frame_map _ _ Hframe), Hmap, count_step_map. }
  split.
  { by rewrite (frame_timeout _ _ Hframe), Htime, count_step_timeout. }
  split.
  { rewrite (frame_name _ _ Hframe), Hname.
    unfold count_step. by case_bool_decide. }
  split.
  { by rewrite Hr, Hrocks, Hcr. }
  rewrite <- Hce, <- Hlen. exact He.
Qed.

(** X7: once the match is not running, ticks do nothing: a session
    played on it only overwrites the key buffer, which no tick consumes,
    and in particular the match stays stopped. *)
Theorem stopped_match_ignores_ticks (keys : list string) (g : Game) :
  g_running g = false ->
  play keys g = foldl (fun g key => keypress key g) g keys /\
  g_running (play keys g) = false.
Proof.
  intros Hrun. split; [|by apply play_stopped].
  unfold play. revert g Hrun.
  induction keys as [|key keys IH]; intros g Hrun; simpl; [reflexivity|].
  rewrite tick_stopped by assumption. by apply IH.
Qed.

Lemma tick_clock (key : string) (g : Game) :
  g_running g = true ->
  g_timeout (tick key g) = g_timeout g /\
  g_step (tick key g) = g_step g + 1 /\
  (g_step g + 1 = g_timeout g -> g_running (tick key g) = false).
Proof.
  intros Hrun. destruct (tick_running key g Hrun) as (u & Hu & ->).
  destruct (update_digdug_returns (count_step (keypress key g)))
    as (u' & Hu' & Htime & _ & _ & Hstep & Hrunning & _).
  rewrite Hu in Hu'. injection Hu' as <-.
  pose proof (finish_frame_frame u) as Hframe.
  split; [|split].
  - by rewrite (frame_timeout _ _ Hframe), Htime, count_step_timeout.
  - by rewrite (frame_step _ _ Hframe), Hstep, count_step_step.
  - intros Hlast. apply (frame_stopped _ _ Hframe).
    rewrite Hrunning, count_step_running. simpl.
    by rewrite bool_decide_eq_true_2.
Qed.

(** X8: a match whose step counter is below its timeout is over after
    at most [timeout - step] ticks, whatever keys are pressed: no tick
    resets the counter, so the clock stops the match if nothing else did
    before. *)
Theorem match_ends_by_timeout (keys : list string) (g : Game) :
  g_step g < g_timeout g ->
  (Z.to_nat (g_timeout g - g_step g) <= length keys)%nat ->
  g_running (play keys g) = false.
Proof.
  revert g. induction keys as [|key keys IH]; intros g Hlt Hlen.
  - simpl in Hlen. lia.
  - change (play (key :: keys) g) with (play keys (tick key g)).
    destruct (g_running g) eqn:Hrun.
    + destruct (tick_clock key g Hrun) as (Htime & Hstep & Hstop).
      destruct (decide (g_step g + 1 = g_timeout g)) as [Hlast|Hmore].
      * apply play_stopped. by apply Hstop.
      * apply IH; rewrite Htime, Hstep; [lia|]. simpl in Hlen. lia.
    + apply play_stopped. by rewrite tick_stopped.
Qed.

End TickMore.

(** * Further properties of the death policy and the collision resolver *)

Section CollisionMore.
Context `{!Collaborators}.

(** X9: [collision] never touches a rock, and keeps the enemies in
    place in the collection: the same individuals in the same order, with
    their identity, name, spawn point and exit flag; it never gives the
    player a life and never changes its spawn point or facing. *)
Theorem collision_keeps_rocks_and_identities (g : Game) :
  g_rocks (collision g) = g_rocks g /\
  enemy_static <$> g_enemies (collision g) = enemy_static <$> g_enemies g /\
  length (g_enemies (collision g)) = length (g_enemies g) /\
  d_lives (g_digdug (collision g)) <= d_lives (g_digdug g) /\
  d_spawn (g_digdug (collision g)) = d_spawn (g_digdug g) /\
  d_direction (g_digdug (collision g)) = d_direction (g_digdug g).
Proof.
  destruct (collision_cast g) as [Hrocks Henemies Hlives Hspawn Hdir].
  repeat split; try assumption. apply collision_length.
Qed.

(** X10: when no enemy and no rock stands on the cell of the player and
    no rock shares a cell with an enemy, [collision] changes nothing at
    all. *)
Theorem collision_without_contact_is_identity (g : Game) :
  Forall (fun e => e_pos e <> d_pos (g_digdug g)) (g_enemies g) ->
  Forall (fun r => r_pos r <> d_pos (g_digdug g) /\
                   Forall (fun e => r_pos r <> e_pos e) (g_enemies g))
    (g_rocks g) ->
  collision g = g.
Proof.
  intros Henemies Hrocks. unfold collision.
  assert (Hfirst :
    foldl collide_enemy g (seq 0%nat (length (g_enemies g))) = g).
  { apply foldl_fixed. intros i _. unfold collide_enemy.
    destruct (g_enemies g !! i) as [e|] eqn:Hi; [|reflexivity].
    rewrite bool_decide_eq_false_2; [reflexivity|].
    exact (Forall_lookup_1 _ _ _ _ Henemies Hi). }
  rewrite Hfirst. apply foldl_fixed. intros r Hr.
  rewrite Forall_forall in Hrocks. destruct (Hrocks r Hr) as [Hplayer Hoff].
  unfold collide_rock. rewrite bool_decide_eq_false_2 by assumption.
  apply foldl_fixed. intros i _. unfold crush.
  destruct (g_enemies g !! i) as [e|] eqn:Hi; [|reflexivity].
  rewrite bool_decide_eq_false_2; [reflexivity|].
  exact (Forall_lookup_1 _ _ _ _ Hoff Hi).
Qed.

Lemma kill_digdug_flags (g : Game) :
  (fun e => (e_alive e, e_crushed e)) <$> g_enemies (kill_digdug g) =
  (fun e => (e_alive e, e_crushed e)) <$> g_enemies g.
Proof.
  unfold kill_digdug. simpl. case_match; simpl; [|reflexivity].
  rewrite <- list_fmap_compose. apply list_fmap_ext.
  intros i e _. simpl. by case_match.
Qed.

(** X11: contact with the player never kills an enemy and never scores.
    On a level without rocks [collision] leaves the score, and the alive
    flag and death cause of every enemy, as they were. *)
Theorem player_contact_never_kills (g : Game) :
  g_rocks g = [] ->
  g_score (collision g) = g_score g /\
  (fun e => (e_alive e, e_crushed e)) <$> g_enemies (collision g) =
  (fun e => (e_alive e, e_crushed e)) <$> g_enemies g.
Proof.
  intros Hrocks. unfold collision.
  set (g1 := foldl collide_enemy g _).
  assert (H1 : g_rocks g1 = g_rocks g /\ g_score g1 = g_score g /\
               (fun e => (e_alive e, e_crushed e)) <$> g_enemies g1 =
               (fun e => (e_alive e, e_crushed e)) <$> g_enemies g).
  { apply foldl_invariant; [done|].
    intros a i _ (Hr & Hscore & Hflags). unfold collide_enemy.
    destruct (g_enemies a !! i) as [e|]; [|done].
    case_bool_decide; [|done]. simpl.
    split; [by rewrite (cast_rocks _ _ (kill_digdug_cast a))|].
    split; [by rewrite kill_digdug_score|].
    rewrite <- Hflags, <- (kill_digdug_flags a).
    rewrite (list_fmap_alter _ Enemy_respawn id);
      [by apply list_alter_id|by apply Forall_forall]. }
  destruct H1 as (Hr & Hscore & Hflags).
  rewrite Hr, Hrocks. simpl. by split.
Qed.

(** X12: when lives remain after the loss, the death policy leaves no
    camper: every enemy that is then within the vital space of the
    player's spawn point stands on its own spawn point; the enemies
    outside the vital space are where they were, and none is added,
    removed, killed or revived. *)
Theorem kill_digdug_evicts_campers (g : Game) :
  1 < d_lives (g_digdug g) ->
  g_enemies (kill_digdug g) =
    ((fun e =>
        if in_vital_space (d_spawn (g_digdug g)) (e_pos e)
        then Enemy_respawn e else e) <$> g_enemies g) /\
  Forall
    (fun e =>
       in_vital_space (d_spawn (g_digdug g)) (e_pos e) = true ->
       e_pos e = e_spawn e)
    (g_enemies (kill_digdug g)) /\
  e_alive <$> g_enemies (kill_digdug g) = e_alive <$> g_enemies g.
Proof.
  intros Hlives.
  destruct (kill_digdug_spare g Hlives) as (_ & Henemies & _).
  split; [exact Henemies|]. split.
  - rewrite Henemies. apply Forall_fmap, Forall_forall.
    intros e _. simpl.
    destruct (in_vital_space (d_spawn (g_digdug g)) (e_pos e)) eqn:Hnear.
    + reflexivity.
    + intros Hnear'. congruence.
  - rewrite Henemies, <- list_fmap_compose. apply list_fmap_ext.
    intros i e _. simpl. by case_match.
Qed.

(** X13: when no life remains after the loss (the player had at most
    one), the death policy stops the match and folds the step counter
    into the total, and moves nothing: the player stays on its cell, the
    enemies stay where they are, and the life count goes down by one even
    below zero. *)
Theorem kill_digdug_without_life_left (g : Game) :
  d_lives (g_digdug g) <= 1 ->
  g_running (kill_digdug g) = false /\
  g_total_steps (kill_digdug g) = g_total_steps g + g_step g /\
  g_step (kill_digdug g) = g_step g /\
  d_pos (g_digdug (kill_digdug g)) = d_pos (g_digdug g) /\
  d_lives (g_digdug (kill_digdug g)) = d_lives (g_digdug g) - 1 /\
  g_enemies (kill_digdug g) = g_enemies g.
Proof.
  intros Hlives. unfold kill_digdug. simpl.
  destruct (Z.gtb_spec (d_lives (g_digdug g) - 1) 0); [lia|]. by simpl.
Qed.

End CollisionMore.

(** * Further properties of level progression and of the lifecycle *)

Section LevelMore.
Context `{!Collaborators}.

Lemma LEVEL_ENEMIES_defined (level : Z) :
  1 <= level <= 3 ->
  exists kinds,
    LEVEL_ENEMIES !! level = Some kinds /\
    Z.of_nat (length kinds) = 2 * level + 1.
Proof.
  intros Hlevel.
  assert (level = 1 \/ level = 2 \/ level = 3) as [-> | [-> | ->]] by lia.
  - exists (replicate 2 Fygar ++ replicate 1 Pooka). by split.
  - exists (replicate 3 Fygar ++ replicate 2 Pooka). by split.
  - exists (replicate 5 Fygar ++ replicate 2 Pooka). by split.
Qed.

Lemma LEVEL_ENEMIES_missing (level : Z) :
  level < 1 \/ 3 < level -> LEVEL_ENEMIES !! level = None.
Proof.
  intros Hlevel. unfold LEVEL_ENEMIES. simpl.
  rewrite !lookup_insert_ne by lia. apply lookup_empty.
Qed.

(** X14: for a level of the table (1, 2 or 3) [next_level] returns
    normally.  It installs the terrain of that level, puts the player on
    its spawn point, folds the step counter into the total and resets it,
    clears the key buffer, and keeps score, lives, running flag and rope.
    The table lists [2 * level + 1] enemy kinds; they are paired in order
    with the spawn points of the terrain and the surplus of the longer
    list is dropped; every enemy starts alive, not exited, on its spawn
    point; and there is one rock per rock position of the terrain. *)
Theorem next_level_builds_the_level (level : Z) (g : Game) :
  1 <= level <= 3 ->
  exists kinds g',
    LEVEL_ENEMIES !! level = Some kinds /\
    Z.of_nat (length kinds) = 2 * level + 1 /\
    next_level level g = Ok tt g' /\
    g_map g' = Map_level level (m_size (g_map g)) /\
    g_step g' = 0 /\
    g_total_steps g' = g_total_steps g + g_step g /\
    g_lastkeypress g' = EmptyString /\
    g_digdug g' = DigDug_respawn (g_digdug g) /\
    g_score g' = g_score g /\
    g_running g' = g_running g /\
    g_rope g' = g_rope g /\
    length (g_enemies g') =
      min (length kinds) (length (m_enemies_spawn (g_map g'))) /\
    (fun e => (e_name e, e_pos e)) <$> g_enemies g' =
      (fun tp => (kind_name tp.1, tp.2))
        <$> zip kinds (m_enemies_spawn (g_map g')) /\
    Forall (fun e => e_alive e = true /\ e_exit e = false /\
                     e_spawn e = e_pos e) (g_enemies g') /\
    r_pos <$> g_rocks g' = m_rocks (g_map g').
Proof.
  intros Hlevel.
  destruct (LEVEL_ENEMIES_defined level Hlevel) as (kinds & Hlook & Hlen).
  exists kinds. eexists.
  split; [exact Hlook|]. split; [exact Hlen|]. split.
  { unfold next_level. rewrite Hlook. reflexivity. }
  cbn [g_map g_step g_total_steps g_lastkeypress g_digdug g_score g_running
       g_rope g_enemies g_rocks set_rocks set_enemies set_lastkeypress
       set_step set_total_steps set_digdug set_map].
  repeat (split; [reflexivity|]).
  split; [by rewrite length_imap, length_zip|]. split.
  { apply list_eq. intros i.
    rewrite !list_lookup_fmap, list_lookup_imap.
    by destruct (zip kinds _ !! i) as [[k p]|]. }
  split.
  { apply Forall_lookup_2. intros i e. rewrite list_lookup_imap.
    destruct (zip kinds _ !! i) as [[k p]|]; [|done].
    intros [= <-]. by simpl. }
  apply list_eq. intros i. rewrite list_lookup_fmap, list_lookup_imap.
  by destruct (m_rocks _ !! i).
Qed.

(** X15: for every level outside the table [next_level] raises
    [KeyError], and raises it half way: the terrain is already that of
    the requested level, the player has been sent to its spawn point, the
    step counter has been folded and reset and the key buffer cleared,
    while the enemies and rocks are still those of the level before. *)
Theorem next_level_raises_outside_table (level : Z) (g : Game) :
  level < 1 \/ 3 < level ->
  exists g',
    next_level level g = Raised (KeyError level) g' /\
    g_map g' = Map_level level (m_size (g_map g)) /\
    g_digdug g' = DigDug_respawn (g_digdug g) /\
    g_step g' = 0 /\
    g_total_steps g' = g_total_steps g + g_step g /\
    g_lastkeypress g' = EmptyString /\
    g_enemies g' = g_enemies g /\
    g_rocks g' = g_rocks g /\
    g_running g' = g_running g.
Proof.
  intros Hlevel. eexists. split.
  { unfold next_level. rewrite (LEVEL_ENEMIES_missing level Hlevel).
    reflexivity. }
  by simpl.
Qed.

(** X16: [start] on a match whose initial level is in the table
    returns normally with the match running, the score at its initial
    value, the step counter at 0 and a player with the configured lives on
    the spawn point of the terrain the match had before the call.  It
    does not renew the rope, which stays the one of the match (for a new
    [Game], an empty rope bound to the terrain of the constructor, not to
    the terrain of the level); and the total of steps restarts from the
    step counter the match had, which [start] does not reset before
    [next_level] folds it. *)
Theorem start_sets_up_the_match (name : string) (g0 : Game) :
  1 <= g_initial_level g0 <= 3 ->
  exists g,
    start name g0 = Ok tt g /\
    g_running g = true /\
    g_player_name g = name /\
    g_score g = INITIAL_SCORE /\
    g_step g = 0 /\
    g_total_steps g = g_step g0 /\
    g_timeout g = g_timeout g0 /\
    g_map g = Map_level (g_initial_level g0) (m_size (g_map g0)) /\
    g_digdug g =
      mkDigDug (m_digdug_spawn (g_map g0)) (m_digdug_spawn (g_map g0))
        (g_initial_lives g0) DigDug_new_direction /\
    g_rope g = g_rope g0.
Proof.
  intros Hlevel.
  destruct (LEVEL_ENEMIES_defined _ Hlevel) as (kinds & Hlook & _).
  eexists. split.
  { unfold start, next_level. cbv zeta.
    cbn [g_initial_level set_digdug set_score set_total_steps set_running
         set_player_name].
    rewrite Hlook. reflexivity. }
  by simpl.
Qed.

(** X17: [start] on a match whose initial level is outside the table
    raises [KeyError], but only after it has set the running flag: the
    match is left running, with the player created and the enemies it had
    before the call (none for a new [Game]). *)
Theorem start_raises_but_leaves_match_running (name : string) (g0 : Game) :
  g_initial_level g0 < 1 \/ 3 < g_initial_level g0 ->
  exists g,
    start name g0 = Raised (KeyError (g_initial_level g0)) g /\
    g_running g = true /\
    g_enemies g = g_enemies g0 /\
    g_rocks g = g_rocks g0 /\
    d_lives (g_digdug g) = g_initial_lives g0 /\
    g_map g = Map_level (g_initial_level g0) (m_size (g_map g0)).
Proof.
  intros Hlevel. eexists. split.
  { unfold start, next_level. cbv zeta.
    cbn [g_initial_level set_digdug set_score set_total_steps set_running
         set_player_name].
    rewrite (LEVEL_ENEMIES_missing _ Hlevel). reflexivity. }
  by simpl.
Qed.

End LevelMore.

(** * Further properties of scoring, hits and the end of the match *)

Section ScoreMore.
Context `{!Collaborators}.

Lemma update_digdug_trigger (g : Game) :
  trigger_accepted (g_lastkeypress g) = true ->
  update_digdug g =
    Ok tt (set_lastkeypress EmptyString (weapon_trigger g).2).
Proof.
  unfold trigger_accepted. intros Hk.
  apply andb_true_iff in Hk as [Hk Htrigger].
  apply andb_true_iff in Hk as [Hvalid Hupper].
  unfold update_digdug. cbv zeta.
  by rewrite guard_never_fires, Hvalid, Hupper, Htrigger.
Qed.

Lemma Rope_hit_found (r : Rope) (enemies : list Enemy) :
  (Rope_hit r enemies).1 = true ->
  exists k e, (Rope_hit r enemies).2 !! k = Some e /\ e_alive e = false.
Proof.
  induction enemies as [|x rest IH]; simpl; [discriminate|].
  case_bool_decide.
  - intros _. by exists 0%nat, (Enemy_kill false x).
  - destruct (Rope_hit r rest) as [found rest']. simpl in *.
    intros Hfound. destruct (IH Hfound) as (k & e & Hk & He).
    by exists (S k), e.
Qed.

(** X18: the movement phase of a tick never moves a dead enemy: an
    enemy that is not alive when the phase starts is, after the enemies
    and the rocks have moved, in the same place of the collection and
    unchanged; the phase keeps the number of enemies and of rocks and
    touches neither the player nor the score. *)
Theorem movement_skips_the_dead (g : Game) (k : nat) (e : Enemy) :
  g_enemies g !! k = Some e ->
  e_alive e = false ->
  g_enemies (move_rocks (move_enemies g)) !! k = Some e /\
  length (g_enemies (move_rocks (move_enemies g))) = length (g_enemies g) /\
  length (g_rocks (move_rocks (move_enemies g))) = length (g_rocks g) /\
  g_digdug (move_rocks (move_enemies g)) = g_digdug g /\
  g_score (move_rocks (move_enemies g)) = g_score g.
Proof.
  intros Hlook Hdead.
  destruct (move_enemies_rest g) as (Hlen & Hrocks & Hd & Hscore).
  destruct (move_rocks_rest (move_enemies g))
    as (Hlen' & Henemies' & Hd' & Hscore').
  rewrite Henemies', Hlen', Hd', Hscore'.
  split; [by apply move_enemies_dead|]. by rewrite Hlen, Hrocks, Hd, Hscore.
Qed.

(** X19: a tick in which [hit] returns [True] takes at least one enemy
    out of the collection, and its snapshot, which lists the enemies that
    are left, carries no rope. *)
Theorem reported_hit_removes_an_enemy (g : Game) :
  g_running g = true ->
  hit_reported g = true ->
  exists snap g',
    next_frame g = Ok (Some snap) g' /\
    s_rope snap = None /\
    (length (g_enemies g') < length (g_enemies g))%nat /\
    length (s_enemies snap) = length (g_enemies g').
Proof.
  intros Hrun Hhit. unfold hit_reported in Hhit.
  apply andb_true_iff in Hhit as [Hkey Hfound].
  destruct (next_frame_running g Hrun) as (u & Hu & Hnext).
  rewrite update_digdug_trigger in Hu by (by rewrite count_step_key).
  injection Hu as Hu.
  destruct (count_step_cast g) as (Hce & _).
  assert (Hrope : g_rope u = Rope_init (g_map (count_step g)) /\
    exists k e, g_enemies u !! k = Some e /\ e_alive e = false).
  { rewrite <- Hu. unfold weapon_trigger in *.
    pose proof (Rope_hit_found
      (Rope_shoot (g_rope (count_step g)) (d_pos (g_digdug (count_step g)))
         (d_direction (g_digdug (count_step g))))
      (g_enemies (count_step g))) as Hdead.
    destruct (Rope_hit _ (g_enemies (count_step g))) as [found enemies].
    simpl in *. subst found. split; [reflexivity|]. by apply Hdead. }
  assert (Hlen : length (g_enemies u) = length (g_enemies g)).
  { rewrite <- Hu, <- Hce. unfold weapon_trigger.
    pose proof (Rope_hit_length
      (Rope_shoot (g_rope (count_step g)) (d_pos (g_digdug (count_step g)))
         (d_direction (g_digdug (count_step g))))
      (g_enemies (count_step g))) as Hl.
    destruct (Rope_hit _ (g_enemies (count_step g))) as [found enemies].
    exact Hl. }
  destruct Hrope as (Hrope & k & e & Hk & Hdead).
  exists (snapshot (finish_frame u)), (finish_frame u).
  split; [assumption|]. split.
  { unfold snapshot. cbn [s_rope].
    by rewrite (frame_rope _ _ (finish_frame_frame u)), Hrope. }
  split; [|unfold snapshot; cbn [s_enemies]; by rewrite length_fmap].
  unfold finish_frame. cbv zeta. cbn [g_enemies set_state].
  rewrite collision_length. simpl.
  destruct (move_rocks_rest (move_enemies u)) as (_ & -> & _).
  destruct (move_enemies_rest u) as (Hlen' & _).
  rewrite <- Hlen, <- Hlen'.
  apply (length_filter_lt _ _ e).
  - eapply list_elem_of_lookup_2. by apply move_enemies_dead.
  - intros [Halive _]. congruence.
Qed.

Lemma dead_points_nonneg (g : Game) :
  (forall v e, 0 <= Enemy_points v e) -> 0 <= dead_points g.
Proof.
  intros Hpoints. unfold dead_points.
  induction (filter _ (g_enemies g)) as [|e l IH]; [simpl; lia|].
  rewrite fmap_cons. cbn [foldr].
  specialize (Hpoints (m_ver_tiles (g_map g)) e). lia.
Qed.

Lemma collision_score_mono (g : Game) :
  (forall v e, 0 <= Enemy_points v e) -> g_score g <= g_score (collision g).
Proof.
  intros Hpoints. unfold collision.
  apply (foldl_invariant (fun a => g_score g <= g_score a)).
  - apply (foldl_invariant (fun a => g_score g <= g_score a)); [lia|].
    intros a i _ Ha. unfold collide_enemy.
    repeat case_match; try assumption. simpl. by rewrite kill_digdug_score.
  - intros a r _ Ha. unfold collide_rock.
    apply (foldl_invariant (fun b => g_score g <= g_score b)).
    + case_match; [by rewrite kill_digdug_score|assumption].
    + intros b i _ Hb. unfold crush.
      repeat case_match; try assumption. simpl.
      match goal with
      | |- _ <= _ + Enemy_points ?v ?e => specialize (Hpoints v e)
      end. lia.
Qed.

Lemma tick_score_mono (key : string) (g : Game) :
  (forall v e, 0 <= Enemy_points v e) -> g_score g <= g_score (tick key g).
Proof.
  intros Hpoints. destruct (g_running g) eqn:Hrun.
  - destruct (tick_running key g Hrun) as (u & Hu & ->).
    assert (Hscore : g_score u = g_score g).
    { destruct (update_digdug_keeps (count_step (keypress key g)))
        as (Hs & _).
      rewrite Hu in Hs. simpl in Hs. rewrite Hs.
      by destruct (count_step_cast (keypress key g)) as (_ & _ & _ & ->). }
    unfold finish_frame. cbv zeta. cbn [g_score set_state].
    etrans; [|apply collision_score_mono, Hpoints]. simpl.
    destruct (move_rocks_rest (move_enemies u)) as (_ & _ & _ & ->).
    destruct (move_enemies_rest u) as (_ & _ & _ & ->).
    pose proof (dead_points_nonneg (move_rocks (move_enemies u)) Hpoints).
    lia.
  - by rewrite tick_stopped.
Qed.

(** X20: when the point value of an enemy is never negative, the score
    never goes down, through any sequence of keys and ticks. *)
Theorem score_never_decreases (keys : list string) (g : Game) :
  (forall v e, 0 <= Enemy_points v e) ->
  g_score g <= g_score (play keys g).
Proof.
  intros Hpoints. unfold play. revert g.
  induction keys as [|key keys IH]; intros g; simpl; [lia|].
  etrans; [apply (tick_score_mono key g Hpoints)|apply IH].
Qed.

Lemma kill_digdug_stop_reason (g : Game) :
  g_running g = true \/ d_lives (g_digdug g) <= 0 ->
  g_running (kill_digdug g) = true \/ d_lives (g_digdug (kill_digdug g)) <= 0.
Proof.
  intros Hinv. unfold kill_digdug. simpl.
  destruct (Z.gtb_spec (d_lives (g_digdug g) - 1) 0) as [Hpos|Hzero]; simpl.
  - destruct Hinv; [by left|lia].
  - right. lia.
Qed.

Lemma collision_stop_reason (g : Game) :
  g_running g = true \/ d_lives (g_digdug g) <= 0 ->
  g_running (collision g) = true \/ d_lives (g_digdug (collision g)) <= 0.
Proof.
  intros Hinv. unfold collision.
  apply foldl_invariant.
  - apply foldl_invariant; [assumption|].
    intros a i _ Ha. unfold collide_enemy.
    repeat case_match; try assumption. simpl.
    by apply kill_digdug_stop_reason.
  - intros a r _ Ha. unfold collide_rock.
    apply foldl_invariant.
    + case_match; [by apply kill_digdug_stop_reason|assumption].
    + intros b i _ Hb. unfold crush. by repeat case_match.
Qed.

Lemma move_phase_running (g : Game) :
  g_running (move_rocks (move_enemies g)) = g_running g.
Proof.
  unfold move_rocks.
  apply (foldl_invariant (fun a => g_running a = g_running g)).
  - unfold move_enemies.
    apply (foldl_invariant (fun a => g_running a = g_running g)); [done|].
    intros a i _ Ha. unfold move_enemy. by repeat case_match.
  - intros a i _ Ha. unfold move_rock. by case_match.
Qed.

(** A running match that a tick leaves stopped was stopped by the clock
    or by the death policy. *)
Lemma tick_stop_reason (key : string) (g : Game) :
  g_running g = true ->
  g_running (tick key g) = true \/
  g_step g + 1 = g_timeout g \/
  d_lives (g_digdug (tick key g)) <= 0.
Proof.
  intros Hrun.
  destruct (decide (g_step g + 1 = g_timeout g)) as [Hlast|Hmore];
    [by right; left|].
  destruct (tick_running key g Hrun) as (u & Hu & ->).
  destruct (update_digdug_returns (count_step (keypress key g)))
    as (u' & Hu' & _ & _ & _ & _ & Hrunning & _).
  rewrite Hu in Hu'. injection Hu' as <-.
  rewrite count_step_running in Hrunning. simpl in Hrunning.
  rewrite bool_decide_eq_false_2, Hrun in Hrunning by assumption.
  assert (Hend : g_running (finish_frame u) = true \/
                 d_lives (g_digdug (finish_frame u)) <= 0).
  { unfold finish_frame. cbv zeta. cbn [g_running g_digdug set_state].
    apply collision_stop_reason. left. simpl.
    by rewrite move_phase_running. }
  destruct Hend; [by left|by right; right].
Qed.

(** X21: a match stops for two reasons only.  If a session played on a
    running match leaves it stopped, then the step counter stands at the
    timeout or the player has no life left. *)
Theorem match_stops_by_clock_or_death (keys : list string) (g : Game) :
  g_running g = true ->
  g_running (play keys g) = false ->
  g_step (play keys g) = g_timeout (play keys g) \/
  d_lives (g_digdug (play keys g)) <= 0.
Proof.
  intros Hrun Hstopped.
  assert (Hinv : g_running (play keys g) = true \/
                 g_step (play keys g) = g_timeout (play keys g) \/
                 d_lives (g_digdug (play keys g)) <= 0).
  { assert (Hstart : g_running g = true \/ g_step g = g_timeout g \/
                     d_lives (g_digdug g) <= 0) by (by left).
    clear Hrun Hstopped. unfold play. revert g Hstart.
    induction keys as [|key keys IH]; intros g Hg; simpl; [assumption|].
    apply IH. destruct (g_running g) eqn:Hrun.
    - destruct (tick_stop_reason key g Hrun) as [Hr | [Hclock | Hdead]].
      + by left.
      + right. left. destruct (tick_clock key g Hrun) as (-> & -> & _).
        exact Hclock.
      + by right; right.
    - rewrite tick_stopped by assumption. simpl.
      destruct Hg as [Hg|Hg]; [congruence|by right]. }
  destruct Hinv as [Hinv|Hinv]; [congruence|exact Hinv].
Qed.

(** X22: the clock compares the step counter with the timeout for
    equality.  A running match whose timeout is not above its step
    counter (a timeout of 0, for one) is never stopped by the clock: after
    any session it is still running, or the player has no life left. *)
Theorem match_past_timeout_has_no_time_limit (keys : list string) (g : Game) :
  g_running g = true ->
  g_timeout g <= g_step g ->
  g_running (play keys g) = true \/ d_lives (g_digdug (play keys g)) <= 0.
Proof.
  intros Hrun Hpast.
  assert (Hstart : g_timeout g <= g_step g /\
    (g_running g = true \/ d_lives (g_digdug g) <= 0))
    by (split; [|left]; done).
  clear Hrun Hpast.
  assert (Hend : g_timeout (play keys g) <= g_step (play keys g) /\
    (g_running (play keys g) = true \/
     d_lives (g_digdug (play keys g)) <= 0)); [|by destruct Hend].
  unfold play. revert g Hstart.
  induction keys as [|key keys IH]; intros g [Hpast Hg]; simpl;
    [by split|].
  apply IH. destruct (g_running g) eqn:Hrun.
  - destruct (tick_clock key g Hrun) as (Htime & Hstep & _).
    split; [rewrite Htime, Hstep; lia|].
    destruct (tick_stop_reason key g Hrun) as [Hr | [Hclock | Hdead]];
      [by left|lia|by right].
  - rewrite tick_stopped by assumption. simpl. split; [assumption|].
    destruct Hg as [Hg|Hg]; [congruence|by right].
Qed.

(** X23: [key2direction] gives each of the four directions exactly one
    key: every direction has a key, two keys with the same direction are
    the same key, and a key with a direction is a single lower-case
    movement symbol, so a trigger or the empty key never has one. *)
Theorem key2direction_one_key_per_direction :
  (forall d, exists key, key2direction key = Some d) /\
  (forall k1 k2 d,
     key2direction k1 = Some d -> key2direction k2 = Some d -> k1 = k2) /\
  (forall key d,
     key2direction key = Some d ->
     String.length key = 1%nat /\ isupper key = false /\
     str_in key "wasd" = true /\ trigger_accepted key = false).
Proof.
  split; [|split].
  - intros []; [by exists "w"|by exists "d"|by exists "s"|by exists "a"].
  - intros k1 k2 d. unfold key2direction.
    repeat case_bool_decide; subst; congruence.
  - intros key d. unfold key2direction.
    repeat case_bool_decide; subst; try discriminate; intros _; by vm_compute.
Qed.

End ScoreMore.

(** * The further properties on the arenas *)

Section MoreOnArena.
Import Arena Runs.

(** X3, on the arena: after two shots of a started match. *)
Lemma snapshot_rope_is_well_formed_witness :
  rope_well_formed (g_rope (play ["A"; "A"] (fresh 3 TIMEOUT))) /\
  exists snap g',
    next_frame (keypress "A" (play ["A"; "A"] (fresh 3 TIMEOUT)))
      = Ok (Some snap) g' /\
    rope_summary_well_formed (s_rope snap).
Proof.
  destruct (snapshot_rope_is_well_formed 1 3 TIMEOUT MAP_SIZE "p1"
              (fresh 3 TIMEOUT) ["A"; "A"] "A") as [Hwf Hsnap].
  - vm_compute. reflexivity.
  - split; [exact Hwf|]. apply Hsnap. vm_compute. reflexivity.
Defined.

(** X4, on the arena: the key [x]. *)
Lemma update_digdug_ignores_invalid_key_witness :
  update_digdug mistyped = Ok tt (set_lastkeypress EmptyString mistyped).
Proof.
  apply update_digdug_ignores_invalid_key. vm_compute. reflexivity.
Defined.

(** X5, on the arena: the key [a] after a shot. *)
Lemma movement_key_drops_rope_witness :
  key2direction "a" = Some WEST /\
  update_digdug (keypress "a" (tick "A" (fresh 3 TIMEOUT))) =
    Ok tt
      (set_lastkeypress EmptyString
         (set_digdug
            (DigDug_move (g_map (keypress "a" (tick "A" (fresh 3 TIMEOUT))))
               (Some WEST)
               (g_enemies (keypress "a" (tick "A" (fresh 3 TIMEOUT))))
               (g_rocks (keypress "a" (tick "A" (fresh 3 TIMEOUT))))
               (g_digdug (keypress "a" (tick "A" (fresh 3 TIMEOUT)))))
            (set_rope
               (Rope_init (g_map (keypress "a" (tick "A" (fresh 3 TIMEOUT)))))
               (keypress "a" (tick "A" (fresh 3 TIMEOUT)))))) /\
  exists snap g',
    next_frame (keypress "a" (tick "A" (fresh 3 TIMEOUT)))
      = Ok (Some snap) g' /\
    g_rope g' = Rope_init (g_map (keypress "a" (tick "A" (fresh 3 TIMEOUT))))
    /\ s_rope snap = None.
Proof.
  destruct (movement_key_drops_rope
              (keypress "a" (tick "A" (fresh 3 TIMEOUT))) "a" WEST)
    as (Hdir & Hupd & Hsnap).
  - apply elem_of_cons. right. apply elem_of_cons. by left.
  - reflexivity.
  - split; [exact Hdir|]. split; [exact Hupd|].
    apply Hsnap. vm_compute. reflexivity.
Defined.

(** X6, on the arena: the first tick of a started match. *)
Lemma running_tick_bookkeeping_witness :
  exists snap g',
    next_frame (fresh 3 TIMEOUT) = Ok (Some snap) g' /\
    g_state g' = Some snap /\
    snap = snapshot g' /\
    g_step g' = g_step (fresh 3 TIMEOUT) + 1 /\
    s_step snap = g_step (fresh 3 TIMEOUT) + 1 /\
    g_lastkeypress g' = EmptyString /\
    g_map g' = g_map (fresh 3 TIMEOUT) /\
    g_timeout g' = g_timeout (fresh 3 TIMEOUT) /\
    g_player_name g' = g_player_name (fresh 3 TIMEOUT) /\
    length (g_rocks g') = length (g_rocks (fresh 3 TIMEOUT)) /\
    (length (g_enemies g') <= length (g_enemies (fresh 3 TIMEOUT)))%nat.
Proof. apply running_tick_bookkeeping. vm_compute. reflexivity. Defined.

(** X7, on the arena: three ticks on a match that was quit. *)
Lemma stopped_match_ignores_ticks_witness :
  play ["w"; "A"; "d"] abandoned =
    foldl (fun g key => keypress key g) abandoned ["w"; "A"; "d"] /\
  g_running (play ["w"; "A"; "d"] abandoned) = false.
Proof. apply stopped_match_ignores_ticks. vm_compute. reflexivity. Defined.

(** X8, on the arena: a match with timeout 2 after two ticks. *)
Lemma match_ends_by_timeout_witness :
  g_running (play ["w"; "A"] (fresh 3 2)) = false.
Proof.
  apply match_ends_by_timeout.
  - vm_compute. reflexivity.
  - vm_compute. lia.
Defined.

(** X10, on the arena: a started match before its first tick. *)
Lemma collision_without_contact_is_identity_witness :
  collision (fresh 3 TIMEOUT) = fresh 3 TIMEOUT.
Proof.
  apply collision_without_contact_is_identity.
  - vm_compute. repeat constructor; discriminate.
  - vm_compute. repeat constructor; discriminate.
Defined.

(** X11, on the arena: two enemies on the cell of the player, no rock. *)
Lemma player_contact_never_kills_witness :
  g_score (collision rockless) = g_score rockless /\
  (fun e => (e_alive e, e_crushed e)) <$> g_enemies (collision rockless) =
  (fun e => (e_alive e, e_crushed e)) <$> g_enemies rockless.
Proof. apply player_contact_never_kills. reflexivity. Defined.

(** X12, on the arena: an enemy one cell from the spawn point of a player
    with three lives. *)
Lemma kill_digdug_evicts_campers_witness :
  g_enemies (kill_digdug aimed) =
    ((fun e =>
        if in_vital_space (d_spawn (g_digdug aimed)) (e_pos e)
        then Enemy_respawn e else e) <$> g_enemies aimed) /\
  Forall
    (fun e =>
       in_vital_space (d_spawn (g_digdug aimed)) (e_pos e) = true ->
       e_pos e = e_spawn e)
    (g_enemies (kill_digdug aimed)) /\
  e_alive <$> g_enemies (kill_digdug aimed) = e_alive <$> g_enemies aimed.
Proof. apply kill_digdug_evicts_campers. vm_compute. reflexivity. Defined.

(** X13, on the arena: the player on its last life. *)
Lemma kill_digdug_without_life_left_witness :
  g_running (kill_digdug crowded) = false /\
  g_total_steps (kill_digdug crowded) =
    g_total_steps crowded + g_step crowded /\
  g_step (kill_digdug crowded) = g_step crowded /\
  d_pos (g_digdug (kill_digdug crowded)) = d_pos (g_digdug crowded) /\
  d_lives (g_digdug (kill_digdug crowded)) = d_lives (g_digdug crowded) - 1 /\
  g_enemies (kill_digdug crowded) = g_enemies crowded.
Proof. apply kill_digdug_without_life_left. vm_compute. discriminate. Defined.

(** X14, on the arena: level 2 has five kinds for seven spawn points. *)
Lemma next_level_builds_the_level_witness :
  exists kinds g',
    LEVEL_ENEMIES !! 2 = Some kinds /\
    Z.of_nat (length kinds) = 2 * 2 + 1 /\
    next_level 2 (fresh 3 TIMEOUT) = Ok tt g' /\
    g_map g' = Map_level 2 (m_size (g_map (fresh 3 TIMEOUT))) /\
    g_step g' = 0 /\
    g_total_steps g' =
      g_total_steps (fresh 3 TIMEOUT) + g_step (fresh 3 TIMEOUT) /\
    g_lastkeypress g' = EmptyString /\
    g_digdug g' = DigDug_respawn (g_digdug (fresh 3 TIMEOUT)) /\
    g_score g' = g_score (fresh 3 TIMEOUT) /\
    g_running g' = g_running (fresh 3 TIMEOUT) /\
    g_rope g' = g_rope (fresh 3 TIMEOUT) /\
    length (g_enemies g') =
      min (length kinds) (length (m_enemies_spawn (g_map g'))) /\
    (fun e => (e_name e, e_pos e)) <$> g_enemies g' =
      (fun tp => (kind_name tp.1, tp.2))
        <$> zip kinds (m_enemies_spawn (g_map g')) /\
    Forall (fun e => e_alive e = true /\ e_exit e = false /\
                     e_spawn e = e_pos e) (g_enemies g') /\
    r_pos <$> g_rocks g' = m_rocks (g_map g').
Proof. apply next_level_builds_the_level. lia. Defined.

(** X15, on the arena: level 0. *)
Lemma next_level_raises_outside_table_witness :
  exists g',
    next_level 0 (fresh 3 TIMEOUT) = Raised (KeyError 0) g' /\
    g_map g' = Map_level 0 (m_size (g_map (fresh 3 TIMEOUT))) /\
    g_digdug g' = DigDug_respawn (g_digdug (fresh 3 TIMEOUT)) /\
    g_step g' = 0 /\
    g_total_steps g' =
      g_total_steps (fresh 3 TIMEOUT) + g_step (fresh 3 TIMEOUT) /\
    g_lastkeypress g' = EmptyString /\
    g_enemies g' = g_enemies (fresh 3 TIMEOUT) /\
    g_rocks g' = g_rocks (fresh 3 TIMEOUT) /\
    g_running g' = g_running (fresh 3 TIMEOUT).
Proof. apply next_level_raises_outside_table. lia. Defined.

(** X16, on the arena: a match constructed for level 3 with five lives. *)
Lemma start_sets_up_the_match_witness :
  exists g,
    start "p1" (Game_init 3 5 TIMEOUT MAP_SIZE) = Ok tt g /\
    g_running g = true /\
    g_player_name g = "p1" /\
    g_score g = INITIAL_SCORE /\
    g_step g = 0 /\
    g_total_steps g = g_step (Game_init 3 5 TIMEOUT MAP_SIZE) /\
    g_timeout g = g_timeout (Game_init 3 5 TIMEOUT MAP_SIZE) /\
    g_map g =
      Map_level (g_initial_level (Game_init 3 5 TIMEOUT MAP_SIZE))
        (m_size (g_map (Game_init 3 5 TIMEOUT MAP_SIZE))) /\
    g_digdug g =
      mkDigDug (m_digdug_spawn (g_map (Game_init 3 5 TIMEOUT MAP_SIZE)))
        (m_digdug_spawn (g_map (Game_init 3 5 TIMEOUT MAP_SIZE)))
        (g_initial_lives (Game_init 3 5 TIMEOUT MAP_SIZE))
        DigDug_new_direction /\
    g_rope g = g_rope (Game_init 3 5 TIMEOUT MAP_SIZE).
Proof. apply start_sets_up_the_match. vm_compute. by split. Defined.

(** X17, on the arena: a match constructed for level 7. *)
Lemma start_raises_but_leaves_match_running_witness :
  exists g,
    start "p1" beyond = Raised (KeyError (g_initial_level beyond)) g /\
    g_running g = true /\
    g_enemies g = g_enemies beyond /\
    g_rocks g = g_rocks beyond /\
    d_lives (g_digdug g) = g_initial_lives beyond /\
    g_map g = Map_level (g_initial_level beyond) (m_size (g_map beyond)).
Proof.
  apply start_raises_but_leaves_match_running. right. vm_compute. reflexivity.
Defined.

(** X18, on the arena: the crushed enemy in the second tick. *)
Lemma movement_skips_the_dead_witness :
  g_enemies (move_rocks (move_enemies after_crush)) !! 0%nat =
    Some (mkEnemy 0 "Fygar" (10, 10) (10, 10) false false true) /\
  length (g_enemies (move_rocks (move_enemies after_crush))) =
    length (g_enemies after_crush) /\
  length (g_rocks (move_rocks (move_enemies after_crush))) =
    length (g_rocks after_crush) /\
  g_digdug (move_rocks (move_enemies after_crush)) = g_digdug after_crush /\
  g_score (move_rocks (move_enemies after_crush)) = g_score after_crush.
Proof.
  apply movement_skips_the_dead; vm_compute; reflexivity.
Defined.

(** X19, on the arena: the shot that reaches the enemy east of the
    player. *)
Lemma reported_hit_removes_an_enemy_witness :
  exists snap g',
    next_frame aimed = Ok (Some snap) g' /\
    s_rope snap = None /\
    (length (g_enemies g') < length (g_enemies aimed))%nat /\
    length (s_enemies snap) = length (g_enemies g').
Proof. apply reported_hit_removes_an_enemy; vm_compute; reflexivity. Defined.

(** X21, on the arena: a match with timeout 1 after its first tick. *)
Lemma match_stops_by_clock_or_death_witness :
  g_step (play ["w"] (fresh 3 1)) = g_timeout (play ["w"] (fresh 3 1)) \/
  d_lives (g_digdug (play ["w"] (fresh 3 1))) <= 0.
Proof. apply match_stops_by_clock_or_death; vm_compute; reflexivity. Defined.

(** X22, on the arena: a match with timeout 0 after four ticks. *)
Lemma match_past_timeout_has_no_time_limit_witness :
  g_running (play ["w"; "A"; "A"; "s"] unlimited) = true \/
  d_lives (g_digdug (play ["w"; "A"; "A"; "s"] unlimited)) <= 0.
Proof.
  apply match_past_timeout_has_no_time_limit.
  - vm_compute. reflexivity.
  - vm_compute. discriminate.
Defined.

(** X23, at the key [w]. *)
Lemma key2direction_one_key_per_direction_witness :
  String.length "w" = 1%nat /\ isupper "w" = false /\
  str_in "w" "wasd" = true /\ trigger_accepted "w" = false.
Proof.
  destruct key2direction_one_key_per_direction as (_ & _ & Hkey).
  apply (Hkey "w" NORTH). reflexivity.
Defined.

End MoreOnArena.

Section MoreOnFlat.
Import Flat.

(** X20, on the second arena: two ticks, the rock crushing an enemy. *)
Lemma score_never_decreases_witness :
  g_score fresh <= g_score (play [EmptyString; EmptyString] fresh).
Proof.
  apply score_never_decreases.
  intros v e. simpl. unfold points, ROCK_KILL_POINTS.
  destruct (e_crushed e); lia.
Defined.

End MoreOnFlat.

(** * One collision per entity *)

Section CrushFacts.
Context `{!Collaborators}.














End CrushFacts.

Section OneCollision.
Context `{!Collaborators}.


End OneCollision.

Section OneCollisionOnArena.
Import Arena Clash.



End OneCollisionOnArena.

(** * The death policy on a started match *)

Section PolicyOnMatch.
Context `{!Collaborators}.







End PolicyOnMatch.

Section PolicyOnArena.
Import Arena Lives.


End PolicyOnArena.


(** ** The tick that reaches the timeout *)

Section SweepFacts.



End SweepFacts.

Section MovementFacts.
Context `{!Collaborators}.




End MovementFacts.

Section ContactFacts.
Context `{!Collaborators}.









End ContactFacts.

Section TimeoutTick.
Context `{!Collaborators}.




End TimeoutTick.

Section TimeoutOnPatrol.
Import Patrol.


End TimeoutOnPatrol.
